(** * Entity edit binding of core-data (packages/core-data/src/entity-provider.js)

    A shallow embedding of the module's registry of per-(kind, type) React
    contexts, of [getEntity], [EntityProvider], and of the three hooks
    [useEntityId], [useEntityProp] and [useEntityBlockEditor], followed by the
    properties proved about them.

    Conventions of the embedding.
    - JavaScript values are the inductive [value]; numbers are integers, and
      arrays, functions and other objects carry the reference that
      [Object.is] compares.
    - The module-level object [entities] and the contexts made by
      [createContext] form the [registry]; what the hooks can change outside
      the module (actions dispatched to the store, calls of [parse], objects
      allocated) is the rest of the [world].
    - A hook is a function of its arguments, of the providers above the
      calling component ([scope]) and of the store it selects from; it runs in
      the monad [M] of a world that may throw.
    - A read such as [entities[kind]] finds an own property, or else a member
      that every object inherits from Object.prototype ("constructor",
      "toString", ...). The embedding follows own properties; a run that
      reaches an inherited member ends in the outcome [Inherited] and is not
      followed further. An assignment [object[name] = ...] makes an own
      property, for an inherited name too, except for "__proto__". *)

From Stdlib Require Import ZArith.
From stdpp Require Import gmap strings list fin_maps.

Local Open Scope string_scope.
Local Open Scope list_scope.
Local Open Scope nat_scope.
Set Warnings "-register-all,-clear-no-such-hyp".

(** ** Values *)

Definition ref := nat.

(** A block of the editor: its name and its inner blocks. *)
Inductive block : Type :=
| Block (name : string) (innerBlocks : list block).

(** The function objects the module creates: the arrow function of
    [onChange], [( { blocks: blocksToSerialize } ) => serialize( blocksToSerialize )]. *)
Inductive closure : Type :=
| SerializeBlocks.

Inductive value : Type :=
| VUndefined
| VNull
| VBool (b : bool)
| VNum (n : Z)
| VStr (s : string)
| VArr (r : ref) (elements : list block)
| VFun (r : ref) (c : closure)
| VObj (r : ref).

(** ToBoolean. *)
Definition truthy (v : value) : bool :=
  match v with
  | VUndefined | VNull => false
  | VBool b => b
  | VNum n => negb (n =? 0)%Z
  | VStr s => negb (String.eqb s "")
  | VArr _ _ | VFun _ _ | VObj _ => true
  end.

(** [typeof v === 'function']. *)
Definition is_function (v : value) : bool :=
  match v with
  | VFun _ _ => true
  | _ => false
  end.

Definition nullish (v : value) : bool :=
  match v with
  | VUndefined | VNull => true
  | _ => false
  end.

(** [a ?? b]. *)
Definition nullish_coalesce (a b : value) : value :=
  if nullish a then b else a.

(** [Object.is], the comparison React applies to hook dependencies:
    primitives by value, objects by reference. *)
Definition same_value (a b : value) : bool :=
  match a, b with
  | VUndefined, VUndefined => true
  | VNull, VNull => true
  | VBool x, VBool y => Bool.eqb x y
  | VNum x, VNum y => (x =? y)%Z
  | VStr x, VStr y => String.eqb x y
  | VArr r _, VArr r' _ => Nat.eqb r r'
  | VFun r _, VFun r' _ => Nat.eqb r r'
  | VObj r, VObj r' => Nat.eqb r r'
  | _, _ => false
  end.

(** An entity record as the store hands it out: reading a property that the
    record lacks gives [VUndefined]. *)
Definition record := string → value.

(** ** Outcomes and the monad of the module *)

Inductive result (A : Type) : Type :=
| Ok (a : A)
| Thrown (message : string)
| Inherited.
Arguments Ok {A} a.
Arguments Thrown {A} message.
Arguments Inherited {A}.

(** Names that a plain object inherits from Object.prototype. *)
Definition object_prototype_names : list string :=
  [ "constructor"; "__proto__"; "hasOwnProperty"; "isPrototypeOf";
    "propertyIsEnumerable"; "toLocaleString"; "toString"; "valueOf";
    "__defineGetter__"; "__defineSetter__"; "__lookupGetter__";
    "__lookupSetter__" ].

Definition inherited (name : string) : bool :=
  existsb (String.eqb name) object_prototype_names.

Definition M (S A : Type) : Type := S → result A * S.

Definition ret {S A} (a : A) : M S A := fun s => (Ok a, s).

Definition bind {S A B} (m : M S A) (f : A → M S B) : M S B :=
  fun s =>
    match m s with
    | (Ok a, s') => f a s'
    | (Thrown e, s') => (Thrown e, s')
    | (Inherited, s') => (Inherited, s')
    end.

Definition throw {S A} (message : string) : M S A := fun s => (Thrown message, s).

Definition leave {S A} : M S A := fun s => (Inherited, s).

Notation "x <- m ;; k" := (bind m (fun x => k))
  (at level 100, m at next level, right associativity).

Fixpoint forEach {S A} (f : A → M S unit) (l : list A) : M S unit :=
  match l with
  | [] => ret tt
  | x :: l' => _ <- f x ;; forEach f l'
  end.

(** ** The registry: [entities] and the contexts of [createContext] *)

Definition ctx := nat.

(** [{ context: createContext() }]. *)
Record entry : Type := { context : ctx }.

Record registry : Type := {
  entities : gmap string (gmap string entry);
  next_context : ctx
}.

Definition empty_registry : registry :=
  {| entities := ∅; next_context := 0 |}.

Definition lookup_entry (r : registry) (kind type : string) : option entry :=
  types ← entities r !! kind; types !! type.

(** [createContext()]: a context object that no earlier call returned. *)
Definition createContext : M registry ctx :=
  fun r => (Ok (next_context r),
            {| entities := entities r; next_context := S (next_context r) |}).

(** [acc[ kind ][ type ] = e], after [acc[ kind ] = {}] when the object has
    no own [acc[ kind ]]. *)
Definition set_entry (kind type : string) (e : entry) : M registry unit :=
  fun r =>
    (Ok tt,
     {| entities := <[kind := <[type := e]> (default ∅ (entities r !! kind))]> (entities r);
        next_context := next_context r |}).

(** Configuration imported from './entities': the list [defaultEntities]
    (each with a [kind] and a [name]) and the list [kinds] (each with a
    [name]). *)
Record entityConfig : Type := { entity_kind : string; entity_name : string }.
Record kindConfig : Type := { kind_name : string }.

(** The callback of [defaultEntities.reduce] (lines 20-26). The test
    [! acc[ entity.kind ]] reads an own property or, for a kind that is no
    own key, an inherited member, on which the assignment of line 24 would
    then write. The assignment [acc[ kind ][ name ] = ...] makes an own
    property for every name but "__proto__", which sets the prototype
    instead. *)
Definition add_default_entity (entity : entityConfig) : M registry unit :=
  fun acc =>
    match entities acc !! entity_kind entity with
    | None => if inherited (entity_kind entity) then leave acc
              else if String.eqb (entity_name entity) "__proto__" then leave acc
              else (c <- createContext ;;
                    set_entry (entity_kind entity) (entity_name entity)
                      {| context := c |}) acc
    | Some _ => if String.eqb (entity_name entity) "__proto__" then leave acc
                else (c <- createContext ;;
                      set_entry (entity_kind entity) (entity_name entity)
                        {| context := c |}) acc
    end.

(** The callback of [kinds.reduce] (lines 27-30): [acc[ kind.name ] = {}],
    an own property for every name but "__proto__". *)
Definition add_kind (kind : kindConfig) : M (gmap string (gmap string entry)) unit :=
  fun acc =>
    if String.eqb (kind_name kind) "__proto__" then leave acc
    else (Ok tt, <[kind_name kind := ∅]> acc).

(** The initialiser of [entities] (lines 19-31): the object spread keeps,
    for a kind named by both reductions, the (empty) table of the second. *)
Definition initial_registry (defaultEntities : list entityConfig)
    (kinds : list kindConfig) : result registry :=
  match forEach add_default_entity defaultEntities empty_registry with
  | (Ok _, r) =>
      match forEach add_kind kinds ∅ with
      | (Ok _, ks) =>
          Ok {| entities := ks ∪ entities r; next_context := next_context r |}
      | (Thrown e, _) => Thrown e
      | (Inherited, _) => Inherited
      end
  | (Thrown e, _) => Thrown e
  | (Inherited, _) => Inherited
  end.

Definition missing_kind_message (kind : string) : string :=
  "Missing entity config for kind: " +:+ kind +:+ ".".

(** [getEntity] (lines 32-42). *)
Definition getEntity (kind type : string) : M registry entry :=
  fun r =>
    match entities r !! kind with
    | None =>
        if inherited kind then leave r
        else throw (missing_kind_message kind) r
    | Some types =>
        match types !! type with
        | Some e => ret e r
        | None =>
            if inherited type then leave r
            else
              (c <- createContext ;;
               _ <- set_entry kind type {| context := c |} ;;
               ret {| context := c |}) r
        end
    end.

(** ** Scopes: the providers above a component *)

(** The [Provider] elements above a component, innermost first, each with
    the context it provides and its [value] prop. *)
Definition scope := list (ctx * value).

(** Modelled from the spec: [useContext] is React's, imported through
    '@wordpress/element', and is not in the sources. It gives the value of
    the nearest enclosing provider of the context (the innermost wins);
    [createContext()] was given no default, so without a provider the value
    is [undefined]. *)
Fixpoint useContext (c : ctx) (env : scope) : value :=
  match env with
  | [] => VUndefined
  | (c', v) :: env' => if Nat.eqb c c' then v else useContext c env'
  end.

(** [EntityProvider] (lines 57-60): the scope in which [children] render. *)
Definition EntityProvider (kind type : string) (id : value) (env : scope)
    : M registry scope :=
  e <- getEntity kind type ;;
  ret ((context e, id) :: env).

(** The props of one [EntityProvider] element. *)
Record providerProps : Type := {
  provider_kind : string;
  provider_type : string;
  provider_id : value
}.

(** Rendering a chain of nested [EntityProvider] elements, outermost first,
    below the scope [env]. *)
Fixpoint render_providers (ancestors : list providerProps) (env : scope)
    : M registry scope :=
  match ancestors with
  | [] => ret env
  | p :: inner =>
      env' <- EntityProvider (provider_kind p) (provider_type p) (provider_id p) env ;;
      render_providers inner env'
  end.

(** [useEntityId] (lines 69-71). *)
Definition useEntityId (kind type : string) (env : scope) : M registry value :=
  e <- getEntity kind type ;;
  ret (useContext (context e) env).

(** ** The world outside the module *)

(** The options object of [editEntityRecord]. *)
Record editOptions : Type := { undoIgnore : bool }.

(** An action dispatched to the 'core' store:
    [editEntityRecord( kind, type, id, edits, options )]; [None] when the call
    passes no options. *)
Inductive action : Type :=
| EditEntityRecord (kind type : string) (id : value)
    (edits : gmap string value) (options : option editOptions).

Definition edits_of (a : action) : gmap string value :=
  match a with
  | EditEntityRecord _ _ _ edits _ => edits
  end.

(** The selectors of the 'core' store that the module reads; [None] is the
    [undefined] of a record that has not resolved. That [getEntityRecord]
    also makes the store fetch such a record belongs to the store and is
    not followed. *)
Record store : Type := {
  getEntityRecord : string → string → value → option record;
  getEditedEntityRecord : string → string → value → option record
}.

Record world : Type := {
  reg : registry;
  dispatched : list action;
  parse_calls : list value;
  next_ref : ref
}.

Definition with_reg (w : world) (r : registry) : world :=
  {| reg := r; dispatched := dispatched w;
     parse_calls := parse_calls w; next_ref := next_ref w |}.

(** A computation on the registry, run in the world. *)
Definition in_registry {A} (m : M registry A) : M world A :=
  fun w => let (res, r) := m (reg w) in (res, with_reg w r).

Definition with_action (w : world) (a : action) : world :=
  {| reg := reg w; dispatched := dispatched w ++ [a];
     parse_calls := parse_calls w; next_ref := next_ref w |}.

(** The actions reach the store in the order of the calls. *)
Definition dispatch (a : action) : M world unit :=
  fun w => (Ok tt, with_action w a).

(** A new object: its reference. *)
Definition alloc : M world ref :=
  fun w =>
    (Ok (next_ref w), {| reg := reg w; dispatched := dispatched w;
                         parse_calls := parse_calls w; next_ref := S (next_ref w) |}).

(** ** The hooks *)

(** The function [setValue] that [useEntityProp] returns, by the variables
    it closes over. The dependencies of its [useCallback] name all of them,
    so the function returned is that of the current render. *)
Record setValue : Type := {
  set_kind : string;
  set_type : string;
  set_id : value;
  set_prop : string
}.

(** [setValue( newValue )] (lines 107-111). *)
Definition call_setValue (f : setValue) (newValue : value) : M world unit :=
  dispatch (EditEntityRecord (set_kind f) (set_type f) (set_id f)
              {[ set_prop f := newValue ]} None).

(** The selector given to [useSelect] (lines 92-102): the pair of [value]
    and [fullValue]; destructuring the empty object gives [undefined] for
    both. *)
Definition select_prop (st : store) (kind type : string) (id : value)
    (prop : string) : value * value :=
  match getEntityRecord st kind type id, getEditedEntityRecord st kind type id with
  | Some entity, Some editedEntity => (editedEntity prop, entity prop)
  | _, _ => (VUndefined, VUndefined)
  end.

(** [useEntityProp] (lines 87-116); the result is
    [[ value, setValue, fullValue ]]. *)
Definition useEntityProp (kind type prop : string) (_id : value)
    (env : scope) (st : store) : M world (value * setValue * value) :=
  providerId <- in_registry (useEntityId kind type env) ;;
  let id := nullish_coalesce _id providerId in
  let selected := select_prop st kind type id prop in
  ret (selected.1,
       {| set_kind := kind; set_type := type; set_id := id; set_prop := prop |},
       selected.2).

(** The function [onChange] that [useEntityBlockEditor] returns, by the
    variables it closes over. *)
Record onChange : Type := {
  closed_onInput : setValue;
  closed_setContent : setValue
}.

(** [onChange( nextBlocks )] (lines 184-190). *)
Definition call_onChange (f : onChange) (nextBlocks : value) : M world unit :=
  _ <- call_setValue (closed_onInput f) nextBlocks ;;
  r <- alloc ;;
  call_setValue (closed_setContent f) (VFun r SerializeBlocks).

(** The third parameter of [useEntityBlockEditor]; [None] and [VUndefined]
    stand for a property left out. *)
Record blockEditorOptions : Type := {
  initialEdits : option (gmap string value);
  blocksProp : option string;
  contentProp : option string;
  _id : value
}.

(** What React keeps for one mounted caller of [useEntityBlockEditor]: the
    dependencies of the last effect, and the dependency and value of the
    memoized [initialBlocks]. *)
Record fiber : Type := {
  effect_deps : option value;
  memo : option (value * value)
}.

Definition mounting : fiber := {| effect_deps := None; memo := None |}.

(** The effect of lines 160-166. *)
Definition seed_initialEdits (kind type : string) (id : value)
    (initialEdits : option (gmap string value)) : M world unit :=
  match initialEdits with
  | Some edits =>
      dispatch (EditEntityRecord kind type id edits (Some {| undoIgnore := true |}))
  | None => ret tt
  end.

(** Modelled from the spec: [useEffect] is React's, imported through
    '@wordpress/element', and is not in the sources. With the dependencies
    [[ id ]] the effect runs after the first render and after each render
    whose [id] is not, by [Object.is], the [id] of the render before. *)
Definition useEffect (effect : M world unit) (last : option value) (id : value)
    : M world unit :=
  match last with
  | Some id' => if same_value id' id then ret tt else effect
  | None => effect
  end.

Section Blocks.

(** [parse] and [serialize] of '@wordpress/blocks'. *)
Variable parse : value → list block.
Variable serialize : value → value.

(** Calling a function object of the module on a record. *)
Definition apply_closure (c : closure) (argument : record) : value :=
  match c with
  | SerializeBlocks => serialize (argument "blocks")
  end.

(** [parse( content )]: the call is counted, and returns a new array. *)
Definition call_parse (content : value) : M world value :=
  fun w =>
    (r <- alloc ;; ret (VArr r (parse content)))
      {| reg := reg w; dispatched := dispatched w;
         parse_calls := parse_calls w ++ [content]; next_ref := next_ref w |}.

(** The function memoized as [initialBlocks] (lines 167-175). *)
Definition compute_initialBlocks (content : value) : M world value :=
  if truthy content && negb (is_function content) then
    parsedContent <- call_parse content ;;
    match parsedContent with
    | VArr _ (_ :: _) => ret parsedContent
    | _ => r <- alloc ;; ret (VArr r [])
    end
  else
    r <- alloc ;; ret (VArr r []).

(** Modelled from the spec: [useMemo] is React's, imported through
    '@wordpress/element', and is not in the sources. It keeps the last value
    with its dependency and computes again when the dependency is not, by
    [Object.is], the one kept. Here it memoizes [compute_initialBlocks] on
    [[ content ]] (lines 167-175). *)
Definition useMemo_initialBlocks (content : value) (cell : option (value * value))
    : M world (value * option (value * value)) :=
  match cell with
  | Some (content', v) =>
      if same_value content' content then ret (v, cell)
      else v' <- compute_initialBlocks content ;; ret (v', Some (content, v'))
  | None => v' <- compute_initialBlocks content ;; ret (v', Some (content, v'))
  end.

(** [useEntityBlockEditor] (lines 139-194) for the caller whose hook state
    is [f]; the result is [[ blocks, onInput, onChange ]] and the hook state
    after the render. The effect runs once the render has returned. *)
Definition useEntityBlockEditor (kind type : string) (opts : blockEditorOptions)
    (env : scope) (st : store) (f : fiber)
    : M world (value * setValue * onChange * fiber) :=
  let blocksProp := default "blocks" (blocksProp opts) in
  let contentProp := default "content" (contentProp opts) in
  providerId <- in_registry (useEntityId kind type env) ;;
  let id := nullish_coalesce (_id opts) providerId in
  serialized <- useEntityProp kind type contentProp id env st ;;
  let content := serialized.1.1 in
  let setContent := serialized.1.2 in
  memoized <- useMemo_initialBlocks content (memo f) ;;
  let initialBlocks := memoized.1 in
  structured <- useEntityProp kind type blocksProp id env st ;;
  let blocks :=
    match structured.1.1 with
    | VUndefined => initialBlocks
    | v => v
    end in
  let onInput := structured.1.2 in
  _ <- useEffect (seed_initialEdits kind type id (initialEdits opts)) (effect_deps f) id ;;
  ret (blocks, onInput,
       {| closed_onInput := onInput; closed_setContent := setContent |},
       {| effect_deps := Some id; memo := memoized.2 |}).

End Blocks.

(** Successive renders of one caller of [useEntityBlockEditor]: each render
    has its own options, scope and store, and starts from the hook state the
    previous one left. *)
Record renderProps : Type := {
  given_options : blockEditorOptions;
  given_scope : scope;
  given_store : store
}.

Fixpoint rerender (parse : value → list block) (kind type : string)
    (renders : list renderProps) (f : fiber) : M world fiber :=
  match renders with
  | [] => ret f
  | p :: later =>
      out <- useEntityBlockEditor parse kind type
               (given_options p) (given_scope p) (given_store p) f ;;
      rerender parse kind type later out.2
  end.

(** ** Notions used by the statements *)

(** The registries the module can be in: the one built when the module is
    loaded, and those that calls of [getEntity] make from it, as long as the
    calls return or throw (a run that meets an inherited member is not
    followed). *)
Inductive reachable (defaultEntities : list entityConfig) (kinds : list kindConfig)
    : registry → Prop :=
| reachable_initial r :
    initial_registry defaultEntities kinds = Ok r →
    reachable defaultEntities kinds r
| reachable_getEntity kind type r res r' :
    reachable defaultEntities kinds r →
    getEntity kind type r = (res, r') →
    res ≠ Inherited →
    reachable defaultEntities kinds r'.

(** The kinds the configuration names. *)
Definition configured_kinds (defaultEntities : list entityConfig)
    (kinds : list kindConfig) : list string :=
  (entity_kind <$> defaultEntities) ++ (kind_name <$> kinds).

(** Every context of the registry was made by [createContext], and no two
    pairs share one. *)
Definition registry_ok (r : registry) : Prop :=
  (∀ kind type e, lookup_entry r kind type = Some e → context e < next_context r) ∧
  (∀ kind type kind' type' e e',
      lookup_entry r kind type = Some e →
      lookup_entry r kind' type' = Some e' →
      context e = context e' → kind = kind' ∧ type = type').

(** The providers of a scope provide contexts that exist. *)
Definition scope_ok (r : registry) (env : scope) : Prop :=
  Forall (fun p => p.1 < next_context r) env.

(** What a scope provides for a pair: nothing for a pair that has no entry. *)
Definition provided (r : registry) (env : scope) (kind type : string) : value :=
  match lookup_entry r kind type with
  | Some e => useContext (context e) env
  | None => VUndefined
  end.

Definition provides (p : providerProps) (kind type : string) : bool :=
  String.eqb (provider_kind p) kind && String.eqb (provider_type p) type.

(** The id that the innermost [EntityProvider] of the pair gives, among
    ancestors listed outermost first; [outer] when there is none. *)
Fixpoint nearest_id (kind type : string) (ancestors : list providerProps)
    (outer : value) : value :=
  match ancestors with
  | [] => outer
  | p :: inner =>
      nearest_id kind type inner
        (if provides p kind type then provider_id p else outer)
  end.

(** The id a render works on, for the entry [e] of its pair. *)
Definition effective_id (e : entry) (p : renderProps) : value :=
  nullish_coalesce (_id (given_options p)) (useContext (context e) (given_scope p)).

(** The first id of each run of consecutive ids that [Object.is] equates;
    [last] is the id before the list. *)
Fixpoint id_changes (last : option value) (ids : list value) : list value :=
  match ids with
  | [] => []
  | id :: later =>
      match last with
      | Some id' => if same_value id' id then id_changes (Some id) later
                    else id :: id_changes (Some id) later
      | None => id :: id_changes (Some id) later
      end
  end.

(** The ways a call of [getEntity] can go. *)
Inductive getEntity_case (kind type : string) (r : registry)
    : result entry → registry → Prop :=
| getEntity_found types e :
    entities r !! kind = Some types → types !! type = Some e →
    getEntity_case kind type r (Ok e) r
| getEntity_created types :
    entities r !! kind = Some types → types !! type = None →
    inherited type = false →
    getEntity_case kind type r (Ok {| context := next_context r |})
      {| entities := <[kind := <[type := {| context := next_context r |}]> types]> (entities r);
         next_context := S (next_context r) |}
| getEntity_inherited_type types :
    entities r !! kind = Some types → types !! type = None →
    inherited type = true →
    getEntity_case kind type r Inherited r
| getEntity_inherited_kind :
    entities r !! kind = None → inherited kind = true →
    getEntity_case kind type r Inherited r
| getEntity_missing :
    entities r !! kind = None → inherited kind = false →
    getEntity_case kind type r (Thrown (missing_kind_message kind)) r.

(** A sequence of references to pairs, each a call of [getEntity] whatever
    it returns: the registry they leave. *)
Fixpoint references (pairs : list (string * string)) (r : registry) : registry :=
  match pairs with
  | [] => r
  | (kind, type) :: later => references later (getEntity kind type r).2
  end.

(** The memo of [initialBlocks] holds a value for this [content]. *)
Definition memo_hit (cell : option (value * value)) (content : value) : bool :=
  match cell with
  | Some (content', _) => same_value content' content
  | None => false
  end.


(** The values [initialBlocks] hands to [parse]. *)
Definition parseable (content : value) : bool :=
  truthy content && negb (is_function content).

(** The pair a default entity names. *)
Definition pair_of (entity : entityConfig) : string * string :=
  (entity_kind entity, entity_name entity).

(** The pair an [EntityProvider] element names. *)
Definition provider_pair (p : providerProps) : string * string :=
  (provider_kind p, provider_type p).

(** The edit that a call [setValue( newValue )] dispatches. *)
Definition edit_of_call (call : setValue * value) : action :=
  EditEntityRecord (set_kind call.1) (set_type call.1) (set_id call.1)
    {[ set_prop call.1 := call.2 ]} None.

(** Calls of setters, one after the other. *)
Fixpoint call_setters (calls : list (setValue * value)) : M world unit :=
  match calls with
  | [] => ret tt
  | (f, newValue) :: later => _ <- call_setValue f newValue ;; call_setters later
  end.

(** ** Sample data *)

Definition sample_parse (content : value) : list block :=
  match content with
  | VStr s => if String.eqb s "" then [] else [Block "core/freeform" []]
  | _ => []
  end.

Definition sample_serialize (blocks : value) : value :=
  match blocks with
  | VArr _ bs => VStr (String.concat "," ((fun b => match b with Block n _ => n end) <$> bs))
  | _ => VStr "?"
  end.

Definition sample_entities : list entityConfig :=
  [ {| entity_kind := "root"; entity_name := "site" |};
    {| entity_kind := "root"; entity_name := "media" |} ].

Definition sample_kinds : list kindConfig := [ {| kind_name := "postType" |} ].

Definition sample_registry : registry :=
  {| entities := {[ "postType" := ∅;
                    "root" := {[ "site" := {| context := 0 |};
                                 "media" := {| context := 1 |} ]} ]};
     next_context := 2 |}.

Definition sample_world : world :=
  {| reg := sample_registry; dispatched := []; parse_calls := []; next_ref := 0 |}.

Definition record_of (fields : list (string * value)) : record :=
  fun prop => default VUndefined ((list_to_map fields : gmap string value) !! prop).

(** A store that holds the post 42, persisted and edited. *)
Definition sample_store : store :=
  let holds (fields : list (string * value)) (kind type : string) (id : value) :=
    if String.eqb kind "postType" && String.eqb type "post" && same_value id (VNum 42)
    then Some (record_of fields) else None in
  {| getEntityRecord := holds [("title", VStr "A"); ("content", VStr "<p>a</p>")];
     getEditedEntityRecord := holds [("title", VStr "B"); ("content", VStr "<p>b</p>")] |}.

(** The same post, edited so that its [blocks] property is a text and not
    an array of blocks. *)
Definition text_blocks_store : store :=
  let holds (fields : list (string * value)) (kind type : string) (id : value) :=
    if String.eqb kind "postType" && String.eqb type "post" && same_value id (VNum 42)
    then Some (record_of fields) else None in
  {| getEntityRecord := holds [("content", VStr "<p>a</p>")];
     getEditedEntityRecord :=
       holds [("content", VStr "<p>b</p>"); ("blocks", VStr "pending")] |}.

(** A store in which no record has resolved. *)
Definition empty_store : store :=
  {| getEntityRecord := fun _ _ _ => None;
     getEditedEntityRecord := fun _ _ _ => None |}.

(** [<EntityProvider kind="postType" type="post" id={ 42 }>]. *)
Definition sample_provider : providerProps :=
  {| provider_kind := "postType"; provider_type := "post"; provider_id := VNum 42 |}.

(** [{ blocksProp: 'body', id: 42 }]. *)
Definition body_options : blockEditorOptions :=
  {| initialEdits := None; blocksProp := Some "body"; contentProp := None;
     _id := VNum 42 |}.

(** [{ initialEdits: { title: 'Draft' }, id: 5 }]. *)
Definition draft_options : blockEditorOptions :=
  {| initialEdits := Some {[ "title" := VStr "Draft" ]}; blocksProp := None;
     contentProp := None; _id := VNum 5 |}.

(** [{ id: 42 }]. *)
Definition post_options : blockEditorOptions :=
  {| initialEdits := None; blocksProp := None; contentProp := None; _id := VNum 42 |}.

(** An array of one paragraph. *)
Definition sample_document : value := VArr 7 [Block "core/paragraph" []].

Definition no_options : blockEditorOptions :=
  {| initialEdits := None; blocksProp := None; contentProp := None; _id := VUndefined |}.

(** * Properties *)

(** Closed goals about the sample data are settled by evaluation. *)
Ltac evaluate := vm_compute; reflexivity.

(** ** Values *)

Lemma same_value_refl v : same_value v v = true.
Proof.
  destruct v as [| |b|n|s|r bs|r c|r]; simpl; try done.
  - by destruct b.
  - apply Z.eqb_refl.
  - apply String.eqb_refl.
  - apply Nat.eqb_refl.
  - apply Nat.eqb_refl.
  - apply Nat.eqb_refl.
Qed.

Lemma same_value_trans a b c :
  same_value a b = true → same_value b c = true → same_value a c = true.
Proof.
  destruct a, b; simpl; try done; destruct c; simpl; try done.
  - intros ->%Bool.eqb_prop. done.
  - intros ->%Z.eqb_eq. done.
  - intros ->%String.eqb_eq. done.
  - intros ->%Nat.eqb_eq. done.
  - intros ->%Nat.eqb_eq. done.
  - intros ->%Nat.eqb_eq. done.
Qed.

(** ** The registry *)

Lemma lookup_entry_Some r kind type e :
  lookup_entry r kind type = Some e ↔
  ∃ types, entities r !! kind = Some types ∧ types !! type = Some e.
Proof. unfold lookup_entry. by rewrite bind_Some. Qed.

Lemma getEntity_cases kind type r :
  getEntity_case kind type r (getEntity kind type r).1 (getEntity kind type r).2.
Proof.
  unfold getEntity.
  destruct (entities r !! kind) as [types|] eqn:Hk.
  - destruct (types !! type) as [e|] eqn:Ht.
    + by eapply getEntity_found.
    + destruct (inherited type) eqn:Hi.
      * by eapply getEntity_inherited_type.
      * cbn. rewrite Hk. cbn. by apply getEntity_created.
  - destruct (inherited kind) eqn:Hi.
    + by apply getEntity_inherited_kind.
    + by apply getEntity_missing.
Qed.

Lemma getEntity_run kind type r res r' :
  getEntity kind type r = (res, r') → getEntity_case kind type r res r'.
Proof.
  intros H. pose proof (getEntity_cases kind type r) as Hc.
  by rewrite H in Hc.
Qed.

(** A call of [getEntity] keeps every entry, and the entry it returns is in
    the registry afterwards. *)
Lemma getEntity_keeps kind type r res r' kind' type' e' :
  getEntity kind type r = (res, r') →
  lookup_entry r kind' type' = Some e' →
  lookup_entry r' kind' type' = Some e'.
Proof.
  intros H%getEntity_run Hl. destruct H as [| types Hk Ht Hi | | |]; try done.
  apply lookup_entry_Some in Hl as (types' & Hk' & Ht').
  apply lookup_entry_Some. cbn.
  destruct (decide (kind = kind')) as [<-|Hne].
  - rewrite lookup_insert_eq. eexists; split; [done|].
    assert (types' = types) as -> by congruence.
    destruct (decide (type = type')) as [<-|Hne']; [congruence|].
    by rewrite lookup_insert_ne.
  - rewrite lookup_insert_ne; [|done]. eauto.
Qed.

Lemma getEntity_registers kind type r e r' :
  getEntity kind type r = (Ok e, r') → lookup_entry r' kind type = Some e.
Proof.
  intros H%getEntity_run. apply lookup_entry_Some.
  inversion H; subst; cbn.
  - eauto.
  - rewrite lookup_insert_eq. eexists; split; [done|]. by rewrite lookup_insert_eq.
Qed.

(** Entries other than the one asked for are as they were. *)
Lemma getEntity_others kind type r res r' kind' type' :
  getEntity kind type r = (res, r') →
  (kind', type') ≠ (kind, type) →
  lookup_entry r' kind' type' = lookup_entry r kind' type'.
Proof.
  intros H%getEntity_run Hne. destruct H as [| types Hk Ht Hi | | |]; try done.
  unfold lookup_entry. cbn.
  destruct (decide (kind = kind')) as [<-|Hnk].
  - rewrite lookup_insert_eq, Hk. cbn.
    rewrite lookup_insert_ne; [done|]. congruence.
  - by rewrite lookup_insert_ne.
Qed.

(** A second reference finds the entry of the first and changes nothing. *)
Lemma getEntity_again kind type r e r' :
  getEntity kind type r = (Ok e, r') → getEntity kind type r' = (Ok e, r').
Proof.
  intros H%getEntity_registers. apply lookup_entry_Some in H as (types & Hk & Ht).
  unfold getEntity. by rewrite Hk, Ht.
Qed.

Lemma getEntity_found_run kind type r e :
  lookup_entry r kind type = Some e → getEntity kind type r = (Ok e, r).
Proof.
  intros (types & Hk & Ht)%lookup_entry_Some. unfold getEntity. by rewrite Hk, Ht.
Qed.

Lemma getEntity_dom kind type r res r' :
  getEntity kind type r = (res, r') → dom (entities r') = dom (entities r).
Proof.
  intros H. apply getEntity_run in H.
  destruct H as [| types Hk Ht Hi | | |]; try done.
  cbn. rewrite dom_insert_L. apply elem_of_dom_2 in Hk. set_solver.
Qed.

Lemma getEntity_next_context kind type r res r' :
  getEntity kind type r = (res, r') → (next_context r ≤ next_context r')%nat.
Proof.
  intros H%getEntity_run. destruct H; cbn; lia.
Qed.

Lemma getEntity_ok kind type r res r' :
  registry_ok r → getEntity kind type r = (res, r') → registry_ok r'.
Proof.
  intros [Hb Hinj] H. pose proof (getEntity_run _ _ _ _ _ H) as Hc.
  destruct Hc as [| types Hk Ht Hi | | |]; try done.
  set (r' := {| entities := _; next_context := _ |}) in *.
  assert (Hnew : lookup_entry r' kind type = Some {| context := next_context r |}).
  { by apply (getEntity_registers _ _ r). }
  assert (Hold : ∀ k t, (k, t) ≠ (kind, type) → lookup_entry r' k t = lookup_entry r k t).
  { intros k t Hne. by apply (getEntity_others kind type r _ r' k t H). }
  assert (Hcase : ∀ k t e, lookup_entry r' k t = Some e →
            ((k, t) = (kind, type) ∧ context e = next_context r) ∨
            ((k, t) ≠ (kind, type) ∧ lookup_entry r k t = Some e)).
  { intros k t e He. destruct (decide ((k, t) = (kind, type))) as [Heq|Hne].
    - left. split; [done|]. injection Heq as -> ->. rewrite Hnew in He. by injection He as <-.
    - right. split; [done|]. by rewrite <- Hold. }
  split.
  - intros k t e He. cbn. destruct (Hcase _ _ _ He) as [[_ ->]|[_ Ho]]; [lia|].
    apply Hb in Ho. lia.
  - intros k t k' t' e e' He He' Hctx.
    destruct (Hcase _ _ _ He) as [[Heq Hc]|[_ Ho]],
             (Hcase _ _ _ He') as [[Heq' Hc']|[_ Ho']].
    + split; congruence.
    + apply Hb in Ho'. lia.
    + apply Hb in Ho. lia.
    + eauto.
Qed.

(** ** The registry the module starts with *)

Lemma set_entry_lookup kind type e r r' kind' type' :
  set_entry kind type e r = (Ok tt, r') →
  lookup_entry r' kind' type' =
    if decide ((kind', type') = (kind, type)) then Some e
    else lookup_entry r kind' type'.
Proof.
  intros [= <-]. unfold lookup_entry. cbn.
  destruct (decide (kind = kind')) as [<-|Hnk].
  - rewrite lookup_insert_eq. cbn.
    destruct (decide (type = type')) as [<-|Hnt].
    + rewrite lookup_insert_eq. by rewrite decide_True.
    + rewrite lookup_insert_ne; [|done]. rewrite decide_False; [|congruence].
      by destruct (entities r !! kind).
  - rewrite lookup_insert_ne; [|done]. rewrite decide_False; [done|congruence].
Qed.

Lemma add_default_entity_run entity r res r' :
  add_default_entity entity r = (res, r') →
  (res = Inherited ∧ r' = r) ∨
  (res = Ok tt ∧
   next_context r' = S (next_context r) ∧
   dom (entities r') = {[ entity_kind entity ]} ∪ dom (entities r) ∧
   ∀ kind type, lookup_entry r' kind type =
     if decide ((kind, type) = (entity_kind entity, entity_name entity))
     then Some {| context := next_context r |}
     else lookup_entry r kind type).
Proof.
  assert (Hset :
    (c <- createContext ;;
     set_entry (entity_kind entity) (entity_name entity) {| context := c |}) r =
    (res, r') →
    (res = Inherited ∧ r' = r) ∨
    (res = Ok tt ∧
     next_context r' = S (next_context r) ∧
     dom (entities r') = {[ entity_kind entity ]} ∪ dom (entities r) ∧
     ∀ kind type, lookup_entry r' kind type =
       if decide ((kind, type) = (entity_kind entity, entity_name entity))
       then Some {| context := next_context r |}
       else lookup_entry r kind type)); [|
    unfold add_default_entity;
    destruct (entities r !! entity_kind entity);
      [|destruct (inherited (entity_kind entity)); [intros [= <- <-]; by left|]];
      (destruct (String.eqb (entity_name entity) "__proto__");
         [intros [= <- <-]; by left|exact Hset])].
  - cbn. intros Hs.
    assert (res = Ok tt) as -> by (unfold set_entry in Hs; congruence).
    right. split; [done|].
    split; [unfold set_entry in Hs; by injection Hs as <-|].
    split; [unfold set_entry in Hs; injection Hs as <-; cbn; by rewrite dom_insert_L|].
    intros kind type. by rewrite (set_entry_lookup _ _ _ _ _ kind type Hs).
Qed.

Lemma add_default_entity_ok entity r r' :
  registry_ok r → add_default_entity entity r = (Ok tt, r') → registry_ok r'.
Proof.
  intros [Hb Hinj] H.
  apply add_default_entity_run in H as [[? _]|(_ & Hn & _ & Hl)]; [done|].
  split.
  - intros k t e. rewrite Hl, Hn. case_decide.
    + intros [= <-]. cbn. lia.
    + intros He%Hb. lia.
  - intros k t k' t' e e'. rewrite !Hl.
    do 2 case_decide.
    + intros _ _ _. split; congruence.
    + intros [= <-] He'%Hb. cbn. lia.
    + intros He%Hb [= <-]. cbn. lia.
    + apply Hinj.
Qed.

Lemma forEach_defaults defaultEntities r r' :
  registry_ok r →
  forEach add_default_entity defaultEntities r = (Ok tt, r') →
  registry_ok r' ∧
  dom (entities r') = list_to_set (entity_kind <$> defaultEntities) ∪ dom (entities r).
Proof.
  revert r. induction defaultEntities as [|entity rest IH]; intros r Hok; cbn.
  - intros [= <-]. split; [done|]. set_solver.
  - unfold bind at 1.
    destruct (add_default_entity entity r) as [[[]| |] r1] eqn:Hstep; try done.
    intros Hrest.
    pose proof (add_default_entity_ok _ _ _ Hok Hstep) as Hok1.
    apply add_default_entity_run in Hstep as [[? _]|(_ & _ & Hd & _)]; [done|].
    destruct (IH _ Hok1 Hrest) as [Hok' Hd']. split; [done|].
    rewrite Hd', Hd. set_solver.
Qed.

Lemma forEach_kinds kinds acc acc' :
  forEach add_kind kinds acc = (Ok tt, acc') →
  dom acc' = list_to_set (kind_name <$> kinds) ∪ dom acc ∧
  ∀ kind types, acc' !! kind = Some types →
    types = ∅ ∨ acc !! kind = Some types.
Proof.
  revert acc. induction kinds as [|k rest IH]; intros acc; cbn.
  - intros [= <-]. split; [set_solver|]. eauto.
  - unfold bind at 1, add_kind at 1.
    destruct (String.eqb (kind_name k) "__proto__"); [done|].
    intros [Hd Hl]%IH. split.
    + rewrite Hd, dom_insert_L. set_solver.
    + intros kind types [->|Hin]%Hl; [by left|].
      destruct (decide (kind_name k = kind)) as [<-|Hne].
      * rewrite lookup_insert_eq in Hin. left. congruence.
      * rewrite lookup_insert_ne in Hin; [|done]. by right.
Qed.

Lemma initial_registry_ok defaultEntities kinds r :
  initial_registry defaultEntities kinds = Ok r →
  registry_ok r ∧
  dom (entities r) = list_to_set (configured_kinds defaultEntities kinds).
Proof.
  unfold initial_registry.
  destruct (forEach add_default_entity defaultEntities empty_registry)
    as [[[]| |] r1] eqn:Hd; try done.
  destruct (forEach add_kind kinds ∅) as [[[]| |] ks] eqn:Hk; try done.
  intros [= <-].
  assert (Hok0 : registry_ok empty_registry).
  { split; intros ???; unfold lookup_entry; cbn; by rewrite lookup_empty. }
  destruct (forEach_defaults _ _ _ Hok0 Hd) as [[Hb Hinj] Hdom].
  destruct (forEach_kinds _ _ _ Hk) as [Hkd Hkl].
  assert (Hsub : ∀ kind type e,
    lookup_entry {| entities := ks ∪ entities r1; next_context := next_context r1 |}
      kind type = Some e → lookup_entry r1 kind type = Some e).
  { intros kind type e (types & Hu & Ht)%lookup_entry_Some. cbn in Hu.
    apply lookup_union_Some_raw in Hu as [Hin|[_ Hin]].
    - apply Hkl in Hin as [->|Hin]; by rewrite lookup_empty in *.
    - apply lookup_entry_Some. eauto. }
  split; [split|].
  - intros kind type e He%Hsub. by apply Hb in He.
  - intros kind type kind' type' e e' He%Hsub He'%Hsub. by apply Hinj.
  - cbn. rewrite dom_union_L, Hkd, Hdom. unfold configured_kinds.
    rewrite list_to_set_app_L. cbn. set_solver.
Qed.

Lemma reachable_ok defaultEntities kinds r :
  reachable defaultEntities kinds r →
  registry_ok r ∧
  dom (entities r) = list_to_set (configured_kinds defaultEntities kinds).
Proof.
  induction 1 as [r Hinit|kind type r res r' _ [IHok IHdom] Hget _].
  - by apply initial_registry_ok.
  - split.
    + by eapply getEntity_ok.
    + by erewrite getEntity_dom.
Qed.

(** X1. In every registry the module can be in, the entries of two
    different pairs hold different contexts, each made by [createContext]. *)
Theorem contexts_distinct defaultEntities kinds r kind type kind' type' e e' :
  reachable defaultEntities kinds r →
  lookup_entry r kind type = Some e →
  lookup_entry r kind' type' = Some e' →
  (kind, type) ≠ (kind', type') →
  context e ≠ context e' ∧ context e < next_context r ∧ context e' < next_context r.
Proof.
  intros [[Hb Hinj] _]%reachable_ok He He' Hne.
  split; [|split; by eapply Hb].
  intros Hctx. destruct (Hinj _ _ _ _ _ _ He He' Hctx). congruence.
Qed.

Lemma contexts_distinct_witness :
  context {| context := 0 |} ≠ context {| context := 1 |} ∧
  context {| context := 0 |} < next_context sample_registry ∧
  context {| context := 1 |} < next_context sample_registry.
Proof.
  apply (contexts_distinct sample_entities sample_kinds sample_registry
           "root" "site" "root" "media").
  - apply reachable_initial. evaluate.
  - evaluate.
  - evaluate.
  - discriminate.
Defined.

(** ** Scopes *)

Lemma useContext_fresh r env c :
  scope_ok r env → (next_context r ≤ c)%nat → useContext c env = VUndefined.
Proof.
  intros Hs Hc. induction Hs as [|[c' v] env Hlt _ IH]; [done|].
  cbn in *. destruct (Nat.eqb_spec c c'); [lia|done].
Qed.

Lemma scope_ok_mono r r' env :
  scope_ok r env → (next_context r ≤ next_context r')%nat → scope_ok r' env.
Proof.
  unfold scope_ok. intros Hs Hle. eapply Forall_impl; [done|].
  intros p Hp. cbn in *. lia.
Qed.

Lemma provides_spec p kind type :
  provides p kind type = true ↔ (kind, type) = (provider_kind p, provider_type p).
Proof.
  unfold provides. rewrite andb_true_iff, !String.eqb_eq. split.
  - by intros [-> ->].
  - by intros [= -> ->].
Qed.

(** What an [EntityProvider] changes in what its children are provided:
    the id of its own pair. *)
Lemma EntityProvider_provided kind type id env r env' r' :
  registry_ok r → scope_ok r env →
  EntityProvider kind type id env r = (Ok env', r') →
  registry_ok r' ∧ scope_ok r' env' ∧
  ∀ kind' type', provided r' env' kind' type' =
    if decide ((kind', type') = (kind, type)) then id
    else provided r env kind' type'.
Proof.
  intros Hok Hs. unfold EntityProvider, bind.
  destruct (getEntity kind type r) as [[e| |] r1] eqn:Hget; try done.
  intros [= <- <-].
  pose proof (getEntity_ok _ _ _ _ _ Hok Hget) as Hok1.
  pose proof (getEntity_registers _ _ _ _ _ Hget) as Hreg.
  pose proof (getEntity_next_context _ _ _ _ _ Hget) as Hle.
  destruct Hok1 as [Hb1 Hinj1].
  split; [done|]. split.
  - constructor; [by eapply Hb1|by eapply scope_ok_mono].
  - intros kind' type'. unfold provided. case_decide as Heq.
    + injection Heq as -> ->. rewrite Hreg. cbn. by rewrite Nat.eqb_refl.
    + rewrite (getEntity_others _ _ _ _ _ kind' type' Hget Heq).
      destruct (lookup_entry r kind' type') as [e'|] eqn:He'; [|done].
      cbn. destruct (Nat.eqb_spec (context e') (context e)) as [Hc|]; [|done].
      pose proof (getEntity_keeps _ _ _ _ _ _ _ _ Hget He') as He1.
      destruct (Hinj1 _ _ _ _ _ _ He1 Hreg Hc). congruence.
Qed.

Lemma render_providers_provided ancestors env r env' r' :
  registry_ok r → scope_ok r env →
  render_providers ancestors env r = (Ok env', r') →
  registry_ok r' ∧ scope_ok r' env' ∧
  ∀ kind type,
    provided r' env' kind type = nearest_id kind type ancestors (provided r env kind type).
Proof.
  revert env r. induction ancestors as [|p inner IH]; intros env r Hok Hs; cbn.
  - by intros [= <- <-].
  - unfold bind at 1.
    destruct (EntityProvider _ _ _ env r) as [[env1| |] r1] eqn:Hp; try done.
    intros Hin.
    destruct (EntityProvider_provided _ _ _ _ _ _ _ Hok Hs Hp) as (Hok1 & Hs1 & H1).
    destruct (IH _ _ Hok1 Hs1 Hin) as (Hok' & Hs' & H').
    split; [done|]. split; [done|].
    intros kind type. rewrite H', H1. f_equal.
    destruct (provides p kind type) eqn:Hpr.
    + apply provides_spec in Hpr. by rewrite decide_True.
    + rewrite decide_False; [done|]. intros Heq%provides_spec. congruence.
Qed.

Lemma useEntityId_provided kind type env r v r' :
  registry_ok r → scope_ok r env →
  useEntityId kind type env r = (Ok v, r') →
  v = provided r env kind type.
Proof.
  intros Hok Hs. unfold useEntityId, bind.
  destruct (getEntity kind type r) as [[e| |] r1] eqn:Hget; try done.
  intros [= <- <-]. unfold provided.
  apply getEntity_run in Hget. inversion Hget as [types e' Hk Ht| types Hk Ht Hi | | |]; subst.
  - by rewrite (proj2 (lookup_entry_Some _ _ _ _) (ex_intro _ types (conj Hk Ht))).
  - unfold lookup_entry. rewrite Hk. cbn. rewrite Ht.
    by apply (useContext_fresh r).
Qed.

(** [useEntityId] below a chain of providers rendered from the root. *)
Lemma useEntityId_nearest kind type ancestors r env r1 v r2 :
  registry_ok r →
  render_providers ancestors [] r = (Ok env, r1) →
  useEntityId kind type env r1 = (Ok v, r2) →
  v = nearest_id kind type ancestors VUndefined.
Proof.
  intros Hok Hr Hu.
  destruct (render_providers_provided _ _ _ _ _ Hok (Forall_nil_2 _) Hr)
    as (Hok1 & Hs1 & Hp).
  rewrite (useEntityId_provided _ _ _ _ _ _ Hok1 Hs1 Hu), Hp.
  f_equal. unfold provided. by destruct (lookup_entry r kind type).
Qed.

Lemma nearest_id_none kind type ancestors outer :
  Forall (fun p => provides p kind type = false) ancestors →
  nearest_id kind type ancestors outer = outer.
Proof.
  intros H. revert outer. induction H as [|p inner Hp _ IH]; intros outer; cbn; [done|].
  by rewrite Hp, IH.
Qed.

Lemma nearest_id_innermost kind type ancestors p outer :
  provides p kind type = true →
  nearest_id kind type (ancestors ++ [p]) outer = provider_id p.
Proof.
  intros Hp. revert outer. induction ancestors as [|q inner IH]; intros outer; cbn.
  - by rewrite Hp.
  - apply IH.
Qed.

Lemma nearest_id_skip kind type ancestors p outer :
  provides p kind type = false →
  nearest_id kind type (ancestors ++ [p]) outer = nearest_id kind type ancestors outer.
Proof.
  intros Hp. revert outer. induction ancestors as [|q inner IH]; intros outer; cbn.
  - by rewrite Hp.
  - apply IH.
Qed.

(** ** Running the hooks *)

Lemma with_reg_same w : with_reg w (reg w) = w.
Proof. by destruct w. Qed.

Lemma with_reg_twice w r r' : with_reg (with_reg w r) r' = with_reg w r'.
Proof. done. Qed.

Lemma nullish_coalesce_twice a b :
  nullish_coalesce (nullish_coalesce a b) b = nullish_coalesce a b.
Proof.
  unfold nullish_coalesce. destruct (nullish a) eqn:Ha; [|by rewrite Ha].
  by destruct (nullish b).
Qed.

Lemma useEntityId_world kind type env w res r1 :
  getEntity kind type (reg w) = (res, r1) →
  in_registry (useEntityId kind type env) w =
    (match res with
     | Ok e => Ok (useContext (context e) env)
     | Thrown message => Thrown message
     | Inherited => Inherited
     end, with_reg w r1).
Proof.
  intros H. unfold in_registry, useEntityId, bind. rewrite H. by destruct res.
Qed.

Lemma useEntityProp_run kind type prop _id env st w e r1 :
  getEntity kind type (reg w) = (Ok e, r1) →
  let id := nullish_coalesce _id (useContext (context e) env) in
  useEntityProp kind type prop _id env st w =
    (Ok ((select_prop st kind type id prop).1,
         {| set_kind := kind; set_type := type; set_id := id; set_prop := prop |},
         (select_prop st kind type id prop).2),
     with_reg w r1).
Proof.
  intros H id. unfold useEntityProp, bind.
  by rewrite (useEntityId_world _ _ _ _ _ _ H).
Qed.

Lemma useEntityProp_thrown kind type prop _id env st w message r1 :
  getEntity kind type (reg w) = (Thrown message, r1) →
  useEntityProp kind type prop _id env st w = (Thrown message, with_reg w r1).
Proof.
  intros H. unfold useEntityProp, bind.
  by rewrite (useEntityId_world _ _ _ _ _ _ H).
Qed.

Lemma useEffect_run effect last id w :
  useEffect effect last id w =
    if match last with Some id' => same_value id' id | None => false end
    then (Ok tt, w) else effect w.
Proof. destruct last as [id'|]; cbn; [|done]. by destruct (same_value id' id). Qed.

Lemma seed_initialEdits_run kind type id initialEdits w :
  seed_initialEdits kind type id initialEdits w =
    (Ok tt,
     match initialEdits with
     | Some edits =>
         with_action w (EditEntityRecord kind type id edits (Some {| undoIgnore := true |}))
     | None => w
     end).
Proof. by destruct initialEdits. Qed.

Section Runs.

Variable parse : value → list block.

Lemma compute_initialBlocks_run content w :
  ∃ r w',
    compute_initialBlocks parse content w =
      (Ok (VArr r (if parseable content then parse content else [])), w') ∧
    reg w' = reg w ∧ dispatched w' = dispatched w ∧
    parse_calls w' = parse_calls w ++ (if parseable content then [content] else []).
Proof.
  unfold compute_initialBlocks, parseable.
  destruct (truthy content && negb (is_function content)).
  - unfold bind at 1, call_parse. cbn.
    destruct (parse content) as [|b bs]; cbn; eauto 10.
  - cbn. rewrite app_nil_r. eauto 10.
Qed.

Lemma useMemo_initialBlocks_run content cell w :
  ∃ v cell' w',
    useMemo_initialBlocks parse content cell w = (Ok (v, cell'), w') ∧
    reg w' = reg w ∧ dispatched w' = dispatched w.
Proof.
  unfold useMemo_initialBlocks.
  destruct (compute_initialBlocks_run content w) as (r & w' & Hc & Hr & Hd & _).
  destruct cell as [[content' v]|].
  - destruct (same_value content' content); cbn; [eauto 10|].
    unfold bind. rewrite Hc. eauto 10.
  - unfold bind. rewrite Hc. eauto 10.
Qed.

(** A render of [useEntityBlockEditor] for a pair that [getEntity] accepts. *)
Lemma useEntityBlockEditor_run kind type opts env st f w e r1 :
  getEntity kind type (reg w) = (Ok e, r1) →
  let id := nullish_coalesce (_id opts) (useContext (context e) env) in
  let structuredName := default "blocks" (blocksProp opts) in
  let serializedName := default "content" (contentProp opts) in
  let onInput :=
    {| set_kind := kind; set_type := type; set_id := id; set_prop := structuredName |} in
  let setContent :=
    {| set_kind := kind; set_type := type; set_id := id; set_prop := serializedName |} in
  ∃ v cell w1,
    useMemo_initialBlocks parse (select_prop st kind type id serializedName).1
      (memo f) (with_reg w r1) = (Ok (v, cell), w1) ∧
    useEntityBlockEditor parse kind type opts env st f w =
      (Ok (match (select_prop st kind type id structuredName).1 with
           | VUndefined => v
           | x => x
           end,
           onInput,
           {| closed_onInput := onInput; closed_setContent := setContent |},
           {| effect_deps := Some id; memo := cell |}),
       (useEffect (seed_initialEdits kind type id (initialEdits opts))
          (effect_deps f) id w1).2).
Proof.
  intros Hget id structuredName serializedName onInput setContent.
  pose proof (getEntity_again _ _ _ _ _ Hget) as Hagain.
  pose proof (nullish_coalesce_twice (_id opts) (useContext (context e) env)) as Hid.
  fold id in Hid.
  destruct (useMemo_initialBlocks_run
              (select_prop st kind type id serializedName).1 (memo f) (with_reg w r1))
    as (v & cell & w1 & Hmemo & Hreg1 & _).
  exists v, cell, w1. split; [done|].
  unfold useEntityBlockEditor. unfold bind at 1.
  rewrite (useEntityId_world _ _ _ _ _ _ Hget).
  fold id serializedName structuredName.
  unfold bind at 1.
  rewrite (useEntityProp_run kind type _ _ env st (with_reg w r1) e r1 Hagain).
  cbn [fst snd]. rewrite with_reg_twice, Hid.
  unfold bind at 1. rewrite Hmemo.
  unfold bind at 1.
  assert (Hget1 : getEntity kind type (reg w1) = (Ok e, r1)) by (by rewrite Hreg1).
  rewrite (useEntityProp_run kind type _ _ env st w1 e r1 Hget1), Hid.
  assert (with_reg w1 r1 = w1) as ->.
  { cbn in Hreg1. rewrite <- Hreg1. apply with_reg_same. }
  cbn [fst snd]. unfold bind.
  rewrite useEffect_run.
  destruct (match effect_deps f with Some id' => same_value id' id | None => false end);
    [done|].
  by destruct (seed_initialEdits kind type id (initialEdits opts) w1) as [[[]| |] w2] eqn:Hseed;
    rewrite seed_initialEdits_run in Hseed.
Qed.

Lemma useEntityBlockEditor_thrown kind type opts env st f w message r1 :
  getEntity kind type (reg w) = (Thrown message, r1) →
  useEntityBlockEditor parse kind type opts env st f w = (Thrown message, with_reg w r1).
Proof.
  intros H. unfold useEntityBlockEditor, bind.
  by rewrite (useEntityId_world _ _ _ _ _ _ H).
Qed.

(** The registry after a render, whatever the render returns. *)
Lemma useEntityBlockEditor_reg kind type opts env st f w :
  reg (useEntityBlockEditor parse kind type opts env st f w).2 =
  (getEntity kind type (reg w)).2.
Proof.
  destruct (getEntity kind type (reg w)) as [[e|message|] r1] eqn:Hget.
  - destruct (useEntityBlockEditor_run kind type opts env st f w e r1 Hget)
      as (v & cell & w1 & Hmemo & ->).
    destruct (useMemo_initialBlocks_run
                (select_prop st kind type
                   (nullish_coalesce (_id opts) (useContext (context e) env))
                   (default "content" (contentProp opts))).1
                (memo f) (with_reg w r1))
      as (v' & cell' & w1' & Hmemo' & Hreg & _).
    rewrite Hmemo in Hmemo'. injection Hmemo' as <- <- <-.
    cbn [snd]. rewrite useEffect_run.
    destruct (match effect_deps f with Some id' => same_value id' _ | None => false end);
      [done|].
    rewrite seed_initialEdits_run. by destruct (initialEdits opts).
  - by rewrite (useEntityBlockEditor_thrown _ _ _ _ _ _ _ _ _ Hget).
  - unfold useEntityBlockEditor, bind.
    by rewrite (useEntityId_world _ _ _ _ _ _ Hget).
Qed.

End Runs.

(** * The claims *)

(** ** Reading a field *)

(** C2. For a pair that [getEntity] accepts, [useEntityProp] returns the
    edited record's value of the property as [value] and the persisted
    record's value as [fullValue] when the store holds both records for the
    effective id; when either record is missing, both are [undefined]. *)
Theorem useEntityProp_values kind type prop _id env st w e r1 :
  getEntity kind type (reg w) = (Ok e, r1) →
  let id := nullish_coalesce _id (useContext (context e) env) in
  ∃ value setValue fullValue w',
    useEntityProp kind type prop _id env st w = (Ok (value, setValue, fullValue), w') ∧
    (∀ entity editedEntity,
        getEntityRecord st kind type id = Some entity →
        getEditedEntityRecord st kind type id = Some editedEntity →
        value = editedEntity prop ∧ fullValue = entity prop) ∧
    (getEntityRecord st kind type id = None ∨
     getEditedEntityRecord st kind type id = None →
     value = VUndefined ∧ fullValue = VUndefined).
Proof.
  intros Hget id. rewrite (useEntityProp_run _ _ prop _id env st _ _ _ Hget).
  fold id. do 4 eexists. split; [done|]. unfold select_prop. split.
  - by intros entity editedEntity -> ->.
  - intros [->| ->]; [done|]. by destruct (getEntityRecord st kind type id).
Qed.

Lemma useEntityProp_values_witness :
  ∃ value setValue fullValue w',
    useEntityProp "postType" "post" "title" (VNum 42) [] sample_store sample_world =
      (Ok (value, setValue, fullValue), w') ∧
    (∀ entity editedEntity,
        getEntityRecord sample_store "postType" "post" (VNum 42) = Some entity →
        getEditedEntityRecord sample_store "postType" "post" (VNum 42) = Some editedEntity →
        value = editedEntity "title" ∧ fullValue = entity "title") ∧
    (getEntityRecord sample_store "postType" "post" (VNum 42) = None ∨
     getEditedEntityRecord sample_store "postType" "post" (VNum 42) = None →
     value = VUndefined ∧ fullValue = VUndefined).
Proof.
  apply (useEntityProp_values "postType" "post" "title" (VNum 42) [] sample_store
           sample_world {| context := 2 |}
           (getEntity "postType" "post" sample_registry).2).
  evaluate.
Defined.

(** The scenario of the specification: below a provider of the post 42,
    with the persisted title "A" and the edited title "B", the hook returns
    "B" and "A", and its setter called with "C" dispatches one edit of the
    title of the post 42. *)
Example useEntityProp_title :
  ∃ env r1 setValue w',
    render_providers [sample_provider] [] sample_registry = (Ok env, r1) ∧
    useEntityProp "postType" "post" "title" VUndefined env sample_store
      (with_reg sample_world r1) = (Ok (VStr "B", setValue, VStr "A"), w') ∧
    dispatched (call_setValue setValue (VStr "C") w').2 =
      [EditEntityRecord "postType" "post" (VNum 42) {[ "title" := VStr "C" ]} None].
Proof. do 4 eexists. repeat split; evaluate. Qed.

(** ** The effective id *)

Lemma nearest_id_split kind type outer p inner v :
  provides p kind type = true →
  Forall (fun q => provides q kind type = false) inner →
  nearest_id kind type (outer ++ p :: inner) v = provider_id p.
Proof.
  intros Hp Hinner. revert v. induction outer as [|q outer IH]; intros v; cbn.
  - rewrite Hp. by apply nearest_id_none.
  - apply IH.
Qed.

Section EffectiveId.

Variable parse : value → list block.
Variables (defaultEntities : list entityConfig) (kinds : list kindConfig).

(** C6. Below a chain of [EntityProvider] elements, for a pair that
    [getEntity] accepts, [useEntityId] returns the id of the innermost
    provider of the pair, and [undefined] when no ancestor provides the
    pair; [useEntityProp] and [useEntityBlockEditor] work on the override
    when one is given (a value other than [undefined] and [null]) and on
    that ambient id otherwise: it is the id of their setters, the id at
    which the store is read and the dependency of the effect. *)
Theorem effective_id_resolution kind type prop override opts ancestors st f w env r1 e r2 :
  reachable defaultEntities kinds (reg w) →
  render_providers ancestors [] (reg w) = (Ok env, r1) →
  getEntity kind type r1 = (Ok e, r2) →
  let ambient := nearest_id kind type ancestors VUndefined in
  let resolve (given : value) :=
    match given with
    | VUndefined | VNull => ambient
    | _ => given
    end in
  let w1 := with_reg w r1 in
  useEntityId kind type env r1 = (Ok ambient, r2) ∧
  (∃ value setValue fullValue w',
      useEntityProp kind type prop override env st w1 =
        (Ok (value, setValue, fullValue), w') ∧
      set_id setValue = resolve override ∧
      (∀ entity editedEntity,
          getEntityRecord st kind type (resolve override) = Some entity →
          getEditedEntityRecord st kind type (resolve override) = Some editedEntity →
          value = editedEntity prop ∧ fullValue = entity prop)) ∧
  (∃ blocks onInput onChange f' w',
      useEntityBlockEditor parse kind type opts env st f w1 =
        (Ok (blocks, onInput, onChange, f'), w') ∧
      set_id onInput = resolve (_id opts) ∧
      set_id (closed_setContent onChange) = resolve (_id opts) ∧
      effect_deps f' = Some (resolve (_id opts))) ∧
  (∀ outer p inner,
      ancestors = outer ++ p :: inner →
      provides p kind type = true →
      Forall (fun q => provides q kind type = false) inner →
      ambient = provider_id p) ∧
  (Forall (fun q => provides q kind type = false) ancestors →
   ambient = VUndefined ∧
   resolve VUndefined = VUndefined ∧ resolve VNull = VUndefined).
Proof.
  intros Hreach Hrender Hget ambient resolve w1.
  destruct (reachable_ok _ _ _ Hreach) as [Hok _].
  assert (Hctx : useContext (context e) env = ambient).
  { unfold ambient. eapply useEntityId_nearest; [done..|].
    unfold useEntityId, bind. by rewrite Hget. }
  assert (Hresolve : ∀ given, nullish_coalesce given ambient = resolve given).
  { by intros []. }
  split; [unfold useEntityId, bind; by rewrite Hget, Hctx|].
  split; [|split; [|split]].
  - rewrite (useEntityProp_run kind type prop override env st w1 e r2 Hget), Hctx, Hresolve.
    do 4 eexists. split; [done|]. split; [done|].
    intros entity editedEntity Hp He. unfold select_prop. by rewrite Hp, He.
  - destruct (useEntityBlockEditor_run parse kind type opts env st f w1 e r2 Hget)
      as (v & cell & w2 & _ & Hrun).
    rewrite Hrun, Hctx, Hresolve. by do 5 eexists.
  - intros outer p inner -> Hp Hinner. by apply nearest_id_split.
  - intros Hnone.
    assert (ambient = VUndefined) as Ha by by apply nearest_id_none.
    repeat split; exact Ha.
Qed.

End EffectiveId.

Lemma effective_id_resolution_witness :
  let env := [(2, VNum 42)] in
  let r1 := (getEntity "postType" "post" sample_registry).2 in
  let w1 := with_reg sample_world r1 in
  useEntityId "postType" "post" env r1 = (Ok (VNum 42), r1) ∧
  (∃ value setValue fullValue w',
      useEntityProp "postType" "post" "title" (VNum 7) env sample_store w1 =
        (Ok (value, setValue, fullValue), w') ∧
      set_id setValue = VNum 7 ∧
      (∀ entity editedEntity,
          getEntityRecord sample_store "postType" "post" (VNum 7) = Some entity →
          getEditedEntityRecord sample_store "postType" "post" (VNum 7) = Some editedEntity →
          value = editedEntity "title" ∧ fullValue = entity "title")) ∧
  (∃ blocks onInput onChange f' w',
      useEntityBlockEditor sample_parse "postType" "post" no_options env
        sample_store mounting w1 =
        (Ok (blocks, onInput, onChange, f'), w') ∧
      set_id onInput = VNum 42 ∧
      set_id (closed_setContent onChange) = VNum 42 ∧
      effect_deps f' = Some (VNum 42)) ∧
  (∀ outer p inner,
      [sample_provider] = outer ++ p :: inner →
      provides p "postType" "post" = true →
      Forall (fun q => provides q "postType" "post" = false) inner →
      VNum 42 = provider_id p) ∧
  (Forall (fun q => provides q "postType" "post" = false) [sample_provider] →
   VNum 42 = VUndefined ∧ VNum 42 = VUndefined ∧ VNum 42 = VUndefined).
Proof.
  apply (effective_id_resolution sample_parse sample_entities sample_kinds
           "postType" "post" "title" (VNum 7) no_options [sample_provider]
           sample_store mounting sample_world [(2, VNum 42)]
           (getEntity "postType" "post" sample_registry).2 {| context := 2 |}
           (getEntity "postType" "post" sample_registry).2).
  - apply reachable_initial. evaluate.
  - evaluate.
  - evaluate.
Defined.

(** ** Pairs the configuration does not know *)

Lemma reachable_kind defaultEntities kinds r kind :
  reachable defaultEntities kinds r →
  is_Some (entities r !! kind) ↔ kind ∈ configured_kinds defaultEntities kinds.
Proof.
  intros [_ Hdom]%reachable_ok.
  by rewrite <- elem_of_dom, Hdom, elem_of_list_to_set.
Qed.

Lemma getEntity_missing_kind kind type r :
  entities r !! kind = None → inherited kind = false →
  getEntity kind type r = (Thrown (missing_kind_message kind), r).
Proof. intros Hk Hi. unfold getEntity. by rewrite Hk, Hi. Qed.

Lemma getEntity_accepts kind type r :
  is_Some (entities r !! kind) → inherited type = false →
  ∃ e r', getEntity kind type r = (Ok e, r').
Proof.
  intros [types Hk] Hi. unfold getEntity. rewrite Hk.
  destruct (types !! type) as [e|]; [by eauto|].
  rewrite Hi. cbn. eauto.
Qed.

Section Configuration.

Variable parse : value → list block.
Variables (defaultEntities : list entityConfig) (kinds : list kindConfig).

(** C4, as amended. In every registry the module can be in: a reference
    through [useEntityId], [useEntityProp] or [useEntityBlockEditor] to a
    pair whose kind the configuration does not name, and which is not the
    name of a member inherited from Object.prototype, throws the error
    "Missing entity config for kind: ...", which the hooks let through to
    their caller, and changes nothing. A reference to a pair whose kind the
    configuration names, and whose type is not such an inherited name,
    throws nothing, whether or not the type is known: when the pair has no
    entry, [getEntity] creates one with a new context, and each of the
    hooks leaves that entry in the registry. *)
Theorem missing_kind_throws kind type prop override opts env st f w :
  reachable defaultEntities kinds (reg w) →
  (kind ∉ configured_kinds defaultEntities kinds →
   inherited kind = false →
   useEntityId kind type env (reg w) = (Thrown (missing_kind_message kind), reg w) ∧
   useEntityProp kind type prop override env st w =
     (Thrown (missing_kind_message kind), w) ∧
   useEntityBlockEditor parse kind type opts env st f w =
     (Thrown (missing_kind_message kind), w)) ∧
  (kind ∈ configured_kinds defaultEntities kinds →
   inherited type = false →
   ∃ e r',
     getEntity kind type (reg w) = (Ok e, r') ∧
     lookup_entry r' kind type = Some e ∧
     (lookup_entry (reg w) kind type = None →
      context e = next_context (reg w) ∧ next_context r' = S (next_context (reg w))) ∧
     (∃ id, useEntityId kind type env (reg w) = (Ok id, r')) ∧
     (∃ out w', useEntityProp kind type prop override env st w = (Ok out, w') ∧
                reg w' = r') ∧
     (∃ out w', useEntityBlockEditor parse kind type opts env st f w = (Ok out, w') ∧
                reg w' = r')).
Proof.
  intros Hreach. split.
  - intros Hnot Hkind.
    assert (Hget : getEntity kind type (reg w) = (Thrown (missing_kind_message kind), reg w)).
    { apply getEntity_missing_kind; [|done].
      apply eq_None_not_Some. by rewrite (reachable_kind _ _ _ _ Hreach). }
    split; [unfold useEntityId, bind; by rewrite Hget|].
    rewrite (useEntityProp_thrown _ _ _ _ _ _ _ _ _ Hget).
    rewrite (useEntityBlockEditor_thrown parse _ _ _ _ _ _ _ _ _ Hget).
    by rewrite with_reg_same.
  - intros Hin Htype.
    destruct (getEntity_accepts kind type (reg w)) as (e & r' & Hget); [|done|].
    { by rewrite (reachable_kind _ _ _ _ Hreach). }
    exists e, r'. split; [done|].
    split; [by eapply getEntity_registers|].
    split.
    { intros Hnone. pose proof (getEntity_run _ _ _ _ _ Hget) as Hcase.
      inversion Hcase as [types e' Hk Ht|types Hk Ht Hi| | |]; subst; [|done].
      unfold lookup_entry in Hnone. rewrite Hk in Hnone. cbn in Hnone. congruence. }
    split; [unfold useEntityId, bind; rewrite Hget; eauto|].
    split.
    + rewrite (useEntityProp_run _ _ prop override env st _ _ _ Hget). eauto.
    + pose proof (useEntityBlockEditor_reg parse kind type opts env st f w) as Hreg.
      rewrite Hget in Hreg.
      destruct (useEntityBlockEditor_run parse kind type opts env st f w e r' Hget)
        as (v & cell & w1 & _ & Hrun).
      rewrite Hrun in Hreg. rewrite Hrun. eauto.
Qed.

End Configuration.

Lemma missing_kind_throws_witness :
  (useEntityId "widget" "sidebar" [] (reg sample_world) =
     (Thrown "Missing entity config for kind: widget.", reg sample_world) ∧
   useEntityProp "widget" "sidebar" "title" VUndefined [] sample_store sample_world =
     (Thrown "Missing entity config for kind: widget.", sample_world) ∧
   useEntityBlockEditor sample_parse "widget" "sidebar" no_options [] sample_store
     mounting sample_world =
     (Thrown "Missing entity config for kind: widget.", sample_world)) ∧
  (∃ e r',
     getEntity "root" "widgetArea" (reg sample_world) = (Ok e, r') ∧
     lookup_entry r' "root" "widgetArea" = Some e ∧
     (lookup_entry (reg sample_world) "root" "widgetArea" = None →
      context e = next_context (reg sample_world) ∧
      next_context r' = S (next_context (reg sample_world))) ∧
     (∃ id, useEntityId "root" "widgetArea" [] (reg sample_world) = (Ok id, r')) ∧
     (∃ out w', useEntityProp "root" "widgetArea" "title" VUndefined [] sample_store
                  sample_world = (Ok out, w') ∧ reg w' = r') ∧
     (∃ out w', useEntityBlockEditor sample_parse "root" "widgetArea" no_options []
                  sample_store mounting sample_world = (Ok out, w') ∧ reg w' = r')).
Proof.
  assert (Hreach : reachable sample_entities sample_kinds (reg sample_world)).
  { apply reachable_initial. evaluate. }
  split.
  - apply (proj1 (missing_kind_throws sample_parse sample_entities sample_kinds
                    "widget" "sidebar" "title" VUndefined no_options [] sample_store
                    mounting sample_world Hreach)).
    + apply (bool_decide_unpack _). vm_compute. exact I.
    + reflexivity.
  - apply (proj2 (missing_kind_throws sample_parse sample_entities sample_kinds
                    "root" "widgetArea" "title" VUndefined no_options [] sample_store
                    mounting sample_world Hreach)).
    + apply (bool_decide_unpack _). vm_compute. exact I.
    + reflexivity.
Defined.

(** C4, as it was stated, fails: the pair ("root", "widgetArea") is not in
    the configuration, and a reference to it throws nothing. *)
Lemma unregistered_pair_counterexample :
  ¬ (∀ kind type r0,
       initial_registry sample_entities sample_kinds = Ok r0 →
       (∀ entity, entity ∈ sample_entities →
                  (entity_kind entity, entity_name entity) ≠ (kind, type)) →
       lookup_entry r0 kind type = None →
       ∃ message r', useEntityId kind type [] r0 = (Thrown message, r')).
Proof.
  intros H.
  destruct (H "root" "widgetArea" sample_registry) as (message & r' & Hthrown).
  - evaluate.
  - intros entity Hin. repeat (apply elem_of_cons in Hin as [->|Hin]; [done|]).
    by apply elem_of_nil in Hin.
  - evaluate.
  - vm_compute in Hthrown. discriminate Hthrown.
Qed.

(** ** The registry only grows *)

Lemma references_keep pairs r kind type e :
  lookup_entry r kind type = Some e →
  lookup_entry (references pairs r) kind type = Some e.
Proof.
  revert r. induction pairs as [|[k t] later IH]; intros r He; cbn; [done|].
  apply IH. destruct (getEntity k t r) as [res r'] eqn:Hget.
  by eapply getEntity_keeps.
Qed.

(** C9. A reference that [getEntity] accepts leaves the entry it returns in
    the registry, made by [createContext] when the pair had none; no
    reference removes or replaces an entry; and after any further
    references, a reference to the same pair returns the same entry and
    leaves the registry as it is. *)
Theorem registry_grows_only kind type r e r1 :
  getEntity kind type r = (Ok e, r1) →
  lookup_entry r1 kind type = Some e ∧
  (lookup_entry r kind type = None → context e = next_context r) ∧
  (∀ e0, lookup_entry r kind type = Some e0 → e = e0 ∧ r1 = r) ∧
  (∀ pairs kind' type' e',
      lookup_entry r kind' type' = Some e' →
      lookup_entry (references pairs r) kind' type' = Some e') ∧
  (∀ pairs,
      getEntity kind type (references pairs r1) = (Ok e, references pairs r1)).
Proof.
  intros Hget. pose proof (getEntity_registers _ _ _ _ _ Hget) as Hreg.
  split; [done|]. split; [|split; [|split]].
  - intros Hnone. apply getEntity_run in Hget.
    inversion Hget as [types e' Hk Ht|types Hk Ht Hi| | |]; subst; [|done].
    unfold lookup_entry in Hnone. rewrite Hk in Hnone. cbn in Hnone. congruence.
  - intros e0 He0. rewrite (getEntity_found_run _ _ _ _ He0) in Hget.
    by injection Hget as <- <-.
  - intros pairs kind' type' e'. apply references_keep.
  - intros pairs. apply getEntity_found_run. by apply references_keep.
Qed.

Lemma registry_grows_only_witness :
  let r1 := (getEntity "postType" "post" sample_registry).2 in
  let e := {| context := 2 |} in
  lookup_entry r1 "postType" "post" = Some e ∧
  (lookup_entry sample_registry "postType" "post" = None →
   context e = next_context sample_registry) ∧
  (∀ e0, lookup_entry sample_registry "postType" "post" = Some e0 →
         e = e0 ∧ r1 = sample_registry) ∧
  (∀ pairs kind' type' e',
      lookup_entry sample_registry kind' type' = Some e' →
      lookup_entry (references pairs sample_registry) kind' type' = Some e') ∧
  (∀ pairs,
      getEntity "postType" "post" (references pairs r1) = (Ok e, references pairs r1)).
Proof.
  apply (registry_grows_only "postType" "post" sample_registry).
  evaluate.
Defined.

(** ** Edits *)

Lemma call_setValue_run f newValue w :
  call_setValue f newValue w =
    (Ok tt,
     with_action w (EditEntityRecord (set_kind f) (set_type f) (set_id f)
                      {[ set_prop f := newValue ]} None)).
Proof. done. Qed.

Lemma call_onChange_run f nextBlocks w :
  call_onChange f nextBlocks w =
    (Ok tt,
     {| reg := reg w;
        dispatched := dispatched w ++
          [ EditEntityRecord (set_kind (closed_onInput f)) (set_type (closed_onInput f))
              (set_id (closed_onInput f))
              {[ set_prop (closed_onInput f) := nextBlocks ]} None;
            EditEntityRecord (set_kind (closed_setContent f))
              (set_type (closed_setContent f)) (set_id (closed_setContent f))
              {[ set_prop (closed_setContent f) := VFun (next_ref w) SerializeBlocks ]}
              None ];
        parse_calls := parse_calls w;
        next_ref := S (next_ref w) |}).
Proof.
  unfold call_onChange, bind. rewrite call_setValue_run. cbn.
  rewrite call_setValue_run. unfold with_action. cbn. by rewrite <- app_assoc.
Qed.

Section Edits.

Variable parse : value → list block.

(** C7. [onInput( doc )] dispatches one [editEntityRecord] for the pair and
    the effective id, whose edits hold the structured property alone, set to
    [doc]: the list of dispatched actions grows by that one edit, no other
    property is in the edit, and nothing else changes. *)
Theorem onInput_edits_structured_only kind type opts env st f w e r1 doc w2 :
  getEntity kind type (reg w) = (Ok e, r1) →
  let id := nullish_coalesce (_id opts) (useContext (context e) env) in
  let structuredName := default "blocks" (blocksProp opts) in
  let serializedName := default "content" (contentProp opts) in
  ∃ blocks onInput onChange f' w' a,
    useEntityBlockEditor parse kind type opts env st f w =
      (Ok (blocks, onInput, onChange, f'), w') ∧
    call_setValue onInput doc w2 = (Ok tt, with_action w2 a) ∧
    a = EditEntityRecord kind type id {[ structuredName := doc ]} None ∧
    dispatched (call_setValue onInput doc w2).2 =
      dispatched w2 ++ [EditEntityRecord kind type id {[ structuredName := doc ]} None] ∧
    reg (call_setValue onInput doc w2).2 = reg w2 ∧
    parse_calls (call_setValue onInput doc w2).2 = parse_calls w2 ∧
    next_ref (call_setValue onInput doc w2).2 = next_ref w2 ∧
    edits_of a !! structuredName = Some doc ∧
    (∀ field, field ≠ structuredName → edits_of a !! field = None) ∧
    (serializedName ≠ structuredName → edits_of a !! serializedName = None).
Proof.
  intros Hget id structuredName serializedName.
  destruct (useEntityBlockEditor_run parse kind type opts env st f w e r1 Hget)
    as (v & cell & w1 & _ & Hrun).
  do 6 eexists. split; [exact Hrun|]. split; [apply call_setValue_run|].
  split; [done|]. rewrite call_setValue_run. cbn. fold structuredName id.
  do 4 (split; [done|]).
  split; [apply lookup_singleton_eq|].
  split; intros; by apply lookup_singleton_ne.
Qed.

(** The seeds dispatched by a sequence of renders that starts from the
    hook state [f]. *)
Lemma rerender_dispatched kind type edits renders f w e r1 :
  getEntity kind type (reg w) = (Ok e, r1) →
  Forall (fun p => initialEdits (given_options p) = Some edits) renders →
  ∃ f' w',
    rerender parse kind type renders f w = (Ok f', w') ∧
    dispatched w' = dispatched w ++
      ((fun id => EditEntityRecord kind type id edits (Some {| undoIgnore := true |}))
         <$> id_changes (effect_deps f) (effective_id e <$> renders)).
Proof.
  intros Hget Hall. revert f w Hget.
  induction Hall as [|p later Hp _ IH]; intros f w Hget; cbn.
  - do 2 eexists. split; [done|]. by rewrite app_nil_r.
  - destruct (useEntityBlockEditor_run parse kind type (given_options p)
                (given_scope p) (given_store p) f w e r1 Hget)
      as (v & cell & w1 & Hmemo & Hrun).
    destruct (useMemo_initialBlocks_run parse
                (select_prop (given_store p) kind type
                   (nullish_coalesce (_id (given_options p))
                      (useContext (context e) (given_scope p)))
                   (default "content" (contentProp (given_options p)))).1
                (memo f) (with_reg w r1))
      as (v' & cell' & w1' & Hmemo' & Hreg1 & Hdisp1).
    rewrite Hmemo in Hmemo'. injection Hmemo' as <- <- <-.
    unfold bind at 1. rewrite Hrun. cbn [snd].
    fold (effective_id e p). rewrite Hp, useEffect_run.
    set (f1 := {| effect_deps := Some (effective_id e p); memo := cell |}).
    destruct (effect_deps f) as [id'|] eqn:Hlast.
    + destruct (same_value id' (effective_id e p)) eqn:Hsame; cbn [snd].
      * destruct (IH f1 w1) as (f' & w' & Hrest & Hd).
        { rewrite Hreg1. cbn. by eapply getEntity_again. }
        exists f', w'. split; [done|]. by rewrite Hd, Hdisp1.
      * rewrite seed_initialEdits_run. cbn [snd].
        destruct (IH f1 (with_action w1
                    (EditEntityRecord kind type (effective_id e p) edits
                       (Some {| undoIgnore := true |}))))
          as (f' & w' & Hrest & Hd).
        { cbn. rewrite Hreg1. cbn. by eapply getEntity_again. }
        exists f', w'. split; [done|]. rewrite Hd. cbn.
        by rewrite Hdisp1, <- app_assoc.
    + rewrite seed_initialEdits_run. cbn [snd].
      destruct (IH f1 (with_action w1
                  (EditEntityRecord kind type (effective_id e p) edits
                     (Some {| undoIgnore := true |}))))
        as (f' & w' & Hrest & Hd).
      { cbn. rewrite Hreg1. cbn. by eapply getEntity_again. }
      exists f', w'. split; [done|]. rewrite Hd. cbn.
      by rewrite Hdisp1, <- app_assoc.
Qed.

Lemma id_changes_same id ids :
  Forall (fun id' => id' = id) ids → id_changes (Some id) ids = [].
Proof.
  induction 1 as [|id' later -> _ IH]; cbn; [done|].
  by rewrite same_value_refl.
Qed.

(** C5. Over the renders of one caller that supplies [initialEdits] each
    time, the effect dispatches [editEntityRecord] with the whole
    [initialEdits] and the option [undoIgnore: true] once for the id of the
    first render and once more each time the id is not the id of the render
    before; renders that keep the id dispatch nothing more, so any number of
    renders with one id dispatch exactly one such edit. *)
Theorem initialEdits_once_per_id kind type edits renders w e r1 :
  getEntity kind type (reg w) = (Ok e, r1) →
  Forall (fun p => initialEdits (given_options p) = Some edits) renders →
  let seed id := EditEntityRecord kind type id edits (Some {| undoIgnore := true |}) in
  ∃ f' w',
    rerender parse kind type renders mounting w = (Ok f', w') ∧
    dispatched w' =
      dispatched w ++ (seed <$> id_changes None (effective_id e <$> renders)) ∧
    (∀ id, renders ≠ [] →
           Forall (fun p => effective_id e p = id) renders →
           dispatched w' = dispatched w ++ [seed id]).
Proof.
  intros Hget Hall seed.
  destruct (rerender_dispatched kind type edits renders mounting w e r1 Hget Hall)
    as (f' & w' & Hrun & Hd).
  exists f', w'. split; [done|]. split; [done|].
  intros id Hne Hsame. rewrite Hd. f_equal.
  destruct Hsame as [|p later Hp Hlater]; [done|].
  cbn. rewrite Hp, id_changes_same; [done|].
  by apply Forall_fmap.
Qed.

End Edits.

Lemma onInput_edits_structured_only_witness :
  ∃ blocks onInput onChange f' w' a,
    useEntityBlockEditor sample_parse "postType" "post" body_options []
      sample_store mounting sample_world =
      (Ok (blocks, onInput, onChange, f'), w') ∧
    call_setValue onInput sample_document sample_world =
      (Ok tt, with_action sample_world a) ∧
    a = EditEntityRecord "postType" "post" (VNum 42) {[ "body" := sample_document ]} None ∧
    dispatched (call_setValue onInput sample_document sample_world).2 =
      dispatched sample_world ++
        [EditEntityRecord "postType" "post" (VNum 42) {[ "body" := sample_document ]} None] ∧
    reg (call_setValue onInput sample_document sample_world).2 = reg sample_world ∧
    parse_calls (call_setValue onInput sample_document sample_world).2 =
      parse_calls sample_world ∧
    next_ref (call_setValue onInput sample_document sample_world).2 =
      next_ref sample_world ∧
    edits_of a !! "body" = Some sample_document ∧
    (∀ field, field ≠ "body" → edits_of a !! field = None) ∧
    ("content" ≠ "body" → edits_of a !! "content" = None).
Proof.
  apply (onInput_edits_structured_only sample_parse "postType" "post" body_options []
           sample_store mounting sample_world {| context := 2 |}
           (getEntity "postType" "post" sample_registry).2 sample_document sample_world).
  evaluate.
Defined.

Lemma initialEdits_once_per_id_witness :
  let renders :=
    [ {| given_options := draft_options; given_scope := []; given_store := sample_store |};
      {| given_options := draft_options; given_scope := []; given_store := sample_store |} ] in
  let seed id :=
    EditEntityRecord "postType" "post" id {[ "title" := VStr "Draft" ]}
      (Some {| undoIgnore := true |}) in
  ∃ f' w',
    rerender sample_parse "postType" "post" renders mounting sample_world = (Ok f', w') ∧
    dispatched w' =
      dispatched sample_world ++
        (seed <$> id_changes None (effective_id {| context := 2 |} <$> renders)) ∧
    (∀ id, renders ≠ [] →
           Forall (fun p => effective_id {| context := 2 |} p = id) renders →
           dispatched w' = dispatched sample_world ++ [seed id]).
Proof.
  apply (initialEdits_once_per_id sample_parse "postType" "post"
           {[ "title" := VStr "Draft" ]} _ sample_world {| context := 2 |}
           (getEntity "postType" "post" sample_registry).2).
  - evaluate.
  - repeat constructor.
Defined.

(** The scenario of the specification: [initialEdits = { title: 'Draft' }]
    for the id 5, rendered twice, is committed once. *)
Example initialEdits_draft_twice :
  ∃ f' w',
    rerender sample_parse "postType" "post"
      [ {| given_options := draft_options; given_scope := []; given_store := sample_store |};
        {| given_options := draft_options; given_scope := []; given_store := sample_store |} ]
      mounting sample_world = (Ok f', w') ∧
    dispatched w' =
      [ EditEntityRecord "postType" "post" (VNum 5) {[ "title" := VStr "Draft" ]}
          (Some {| undoIgnore := true |}) ].
Proof. do 2 eexists. split; evaluate. Qed.

(** ** Edits without an id *)

Section WithoutId.

Variable parse : value → list block.
Variables (defaultEntities : list entityConfig) (kinds : list kindConfig).

(** C10. Where no ancestor provides the pair and no override is given, the
    effective id is [undefined], and still the setter of [useEntityProp]
    dispatches its edit, and the first render of [useEntityBlockEditor]
    dispatches the [initialEdits], both with [undefined] as the id. *)
Theorem edits_with_undefined_id kind type prop override opts edits ancestors st w
    env r1 e r2 newValue w2 :
  reachable defaultEntities kinds (reg w) →
  render_providers ancestors [] (reg w) = (Ok env, r1) →
  getEntity kind type r1 = (Ok e, r2) →
  Forall (fun q => provides q kind type = false) ancestors →
  nullish override = true →
  nullish (_id opts) = true →
  initialEdits opts = Some edits →
  (∃ value setValue fullValue w',
      useEntityProp kind type prop override env st (with_reg w r1) =
        (Ok (value, setValue, fullValue), w') ∧
      call_setValue setValue newValue w2 =
        (Ok tt, with_action w2
                  (EditEntityRecord kind type VUndefined {[ prop := newValue ]} None)) ∧
      dispatched (call_setValue setValue newValue w2).2 =
        dispatched w2 ++
          [EditEntityRecord kind type VUndefined {[ prop := newValue ]} None]) ∧
  (∃ out w',
      useEntityBlockEditor parse kind type opts env st mounting (with_reg w r1) =
        (Ok out, w') ∧
      dispatched w' =
        dispatched w ++
          [EditEntityRecord kind type VUndefined edits (Some {| undoIgnore := true |})]).
Proof.
  intros Hreach Hrender Hget Hnone Hover Hopt Hedits.
  destruct (reachable_ok _ _ _ Hreach) as [Hok _].
  assert (Hctx : useContext (context e) env = VUndefined).
  { rewrite <- (nearest_id_none kind type ancestors VUndefined Hnone).
    eapply useEntityId_nearest; [done..|].
    unfold useEntityId, bind. by rewrite Hget. }
  assert (Hid : ∀ a, nullish a = true → nullish_coalesce a VUndefined = VUndefined).
  { intros a Ha. unfold nullish_coalesce. by rewrite Ha. }
  split.
  - rewrite (useEntityProp_run kind type prop override env st (with_reg w r1) e r2 Hget).
    rewrite Hctx, (Hid _ Hover). do 4 eexists. split; [done|].
    by rewrite call_setValue_run.
  - destruct (useEntityBlockEditor_run parse kind type opts env st mounting
                (with_reg w r1) e r2 Hget) as (v & cell & w1 & Hmemo & Hrun).
    destruct (useMemo_initialBlocks_run parse
                (select_prop st kind type
                   (nullish_coalesce (_id opts) (useContext (context e) env))
                   (default "content" (contentProp opts))).1
                (memo mounting) (with_reg (with_reg w r1) r2))
      as (v' & cell' & w1' & Hmemo' & _ & Hdisp).
    rewrite Hmemo in Hmemo'. injection Hmemo' as <- <- <-.
    rewrite Hrun, Hctx, (Hid _ Hopt), Hedits. do 2 eexists. split; [done|].
    cbn. by rewrite Hdisp.
Qed.

End WithoutId.

Lemma edits_with_undefined_id_witness :
  (∃ value setValue fullValue w',
      useEntityProp "root" "site" "title" VUndefined []
        sample_store (with_reg sample_world sample_registry) =
        (Ok (value, setValue, fullValue), w') ∧
      call_setValue setValue (VStr "C") sample_world =
        (Ok tt, with_action sample_world
                  (EditEntityRecord "root" "site" VUndefined
                     {[ "title" := VStr "C" ]} None)) ∧
      dispatched (call_setValue setValue (VStr "C") sample_world).2 =
        dispatched sample_world ++
          [EditEntityRecord "root" "site" VUndefined {[ "title" := VStr "C" ]} None]) ∧
  (∃ out w',
      useEntityBlockEditor sample_parse "root" "site"
        {| initialEdits := Some {[ "title" := VStr "Draft" ]}; blocksProp := None;
           contentProp := None; _id := VUndefined |}
        [] sample_store mounting (with_reg sample_world sample_registry) = (Ok out, w') ∧
      dispatched w' =
        dispatched sample_world ++
          [EditEntityRecord "root" "site" VUndefined {[ "title" := VStr "Draft" ]}
             (Some {| undoIgnore := true |})]).
Proof.
  apply (edits_with_undefined_id sample_parse sample_entities sample_kinds
           "root" "site" "title" VUndefined
           {| initialEdits := Some {[ "title" := VStr "Draft" ]}; blocksProp := None;
              contentProp := None; _id := VUndefined |}
           {[ "title" := VStr "Draft" ]} [] sample_store sample_world
           [] sample_registry {| context := 0 |} sample_registry (VStr "C") sample_world).
  - apply reachable_initial. evaluate.
  - reflexivity.
  - evaluate.
  - constructor.
  - reflexivity.
  - reflexivity.
  - reflexivity.
Defined.

(** ** The function edit of [onChange] *)

Section Commit.

Variable parse : value → list block.
Variable serialize : value → value.

(** What [onChange( doc )] dispatches: the edit of the structured property,
    then the edit that sets the serialized property to a new function
    object; that function, called on a record, serializes the record's
    property named "blocks". *)
Lemma onChange_dispatches kind type opts env st f w e r1 doc w2 :
  getEntity kind type (reg w) = (Ok e, r1) →
  let id := nullish_coalesce (_id opts) (useContext (context e) env) in
  let structuredName := default "blocks" (blocksProp opts) in
  let serializedName := default "content" (contentProp opts) in
  ∃ blocks onInput onChange f' w' w2',
    useEntityBlockEditor parse kind type opts env st f w =
      (Ok (blocks, onInput, onChange, f'), w') ∧
    call_onChange onChange doc w2 = (Ok tt, w2') ∧
    dispatched w2' = dispatched w2 ++
      [ EditEntityRecord kind type id {[ structuredName := doc ]} None;
        EditEntityRecord kind type id
          {[ serializedName := VFun (next_ref w2) SerializeBlocks ]} None ] ∧
    ∀ editedRecord,
      apply_closure serialize SerializeBlocks editedRecord =
      serialize (editedRecord "blocks").
Proof.
  intros Hget id structuredName serializedName.
  destruct (useEntityBlockEditor_run parse kind type opts env st f w e r1 Hget)
    as (v & cell & w1 & _ & Hrun).
  do 6 eexists. split; [exact Hrun|]. split; [apply call_onChange_run|].
  split; done.
Qed.

(** X2. With the default name of the structured property, [onChange( doc )]
    dispatches the edit [{ blocks: doc }] and then one edit of the
    serialized property whose value is a function; called on a record in
    which "blocks" holds [doc], the function gives the serialization of
    [doc]. *)
Theorem onChange_default_serializes_document kind type opts env st f w e r1 doc w2 :
  getEntity kind type (reg w) = (Ok e, r1) →
  blocksProp opts = None →
  let id := nullish_coalesce (_id opts) (useContext (context e) env) in
  let serializedName := default "content" (contentProp opts) in
  ∃ blocks onInput onChange f' w' w2' edit,
    useEntityBlockEditor parse kind type opts env st f w =
      (Ok (blocks, onInput, onChange, f'), w') ∧
    call_onChange onChange doc w2 = (Ok tt, w2') ∧
    dispatched w2' = dispatched w2 ++
      [ EditEntityRecord kind type id {[ "blocks" := doc ]} None;
        EditEntityRecord kind type id {[ serializedName := VFun (next_ref w2) edit ]}
          None ] ∧
    ∀ editedRecord : record,
      editedRecord "blocks" = doc →
      apply_closure serialize edit editedRecord = serialize doc.
Proof.
  intros Hget Hdefault id serializedName.
  destruct (onChange_dispatches kind type opts env st f w e r1 doc w2 Hget)
    as (blocks & onInput & onChange & f' & w' & w2' & Hrun & Hcall & Hd & Happly).
  rewrite Hdefault in Hd. cbn in Hd.
  do 7 eexists. split; [exact Hrun|]. split; [exact Hcall|]. split; [exact Hd|].
  intros editedRecord <-. apply Happly.
Qed.

End Commit.

Lemma onChange_default_serializes_document_witness :
  ∃ blocks onInput onChange f' w' w2' edit,
    useEntityBlockEditor sample_parse "postType" "post" post_options [] sample_store
      mounting sample_world =
      (Ok (blocks, onInput, onChange, f'), w') ∧
    call_onChange onChange sample_document sample_world = (Ok tt, w2') ∧
    dispatched w2' = dispatched sample_world ++
      [ EditEntityRecord "postType" "post" (VNum 42) {[ "blocks" := sample_document ]} None;
        EditEntityRecord "postType" "post" (VNum 42)
          {[ "content" := VFun (next_ref sample_world) edit ]} None ] ∧
    ∀ editedRecord : record,
      editedRecord "blocks" = sample_document →
      apply_closure sample_serialize edit editedRecord = sample_serialize sample_document.
Proof.
  apply (onChange_default_serializes_document sample_parse sample_serialize
           "postType" "post" post_options [] sample_store mounting sample_world
           {| context := 2 |} (getEntity "postType" "post" sample_registry).2
           sample_document sample_world).
  - evaluate.
  - reflexivity.
Defined.

(** C1, where the code departs from it. With [blocksProp: 'body'],
    [onChange( doc )] dispatches the edit [{ body: doc }] and then the
    function edit of "content"; called on the edited record, in which
    "body" holds [doc], the function serializes the property "blocks",
    which the record lacks: the result is the serialization of [undefined]
    whatever [doc] is, and not the serialization of [doc]. *)
Theorem onChange_ignores_blocksProp :
  ∃ blocks onInput onChange f' w' w2,
    useEntityBlockEditor sample_parse "postType" "post" body_options []
      sample_store mounting sample_world =
      (Ok (blocks, onInput, onChange, f'), w') ∧
    call_onChange onChange sample_document w' = (Ok tt, w2) ∧
    dispatched w2 =
      [ EditEntityRecord "postType" "post" (VNum 42) {[ "body" := sample_document ]} None;
        EditEntityRecord "postType" "post" (VNum 42)
          {[ "content" := VFun 1 SerializeBlocks ]} None ] ∧
    (∀ serialize doc,
        apply_closure serialize SerializeBlocks
          (record_of [("title", VStr "B"); ("content", VStr "<p>b</p>"); ("body", doc)]) =
        serialize VUndefined) ∧
    apply_closure sample_serialize SerializeBlocks
      (record_of [("title", VStr "B"); ("content", VStr "<p>b</p>");
                  ("body", sample_document)]) = VStr "?" ∧
    sample_serialize sample_document = VStr "core/paragraph".
Proof.
  do 6 eexists.
  split; [evaluate|].
  split; [evaluate|].
  split; [evaluate|].
  split; [intros serialize doc; reflexivity|].
  split; evaluate.
Qed.

(** ** The working document *)

Section Document.

Variable parse : value → list block.

Lemma useMemo_initialBlocks_miss content cell w :
  memo_hit cell content = false →
  ∃ r w',
    useMemo_initialBlocks parse content cell w =
      (let v := VArr r (if parseable content then parse content else []) in
       (Ok (v, Some (content, v)), w')) ∧
    reg w' = reg w ∧ dispatched w' = dispatched w ∧
    parse_calls w' = parse_calls w ++ (if parseable content then [content] else []).
Proof.
  intros Hmiss.
  destruct (compute_initialBlocks_run parse content w) as (r & w' & Hc & Hr & Hd & Hp).
  exists r, w'. split; [|done].
  unfold useMemo_initialBlocks. destruct cell as [[content' v]|]; cbn in Hmiss.
  - rewrite Hmiss. unfold bind. by rewrite Hc.
  - unfold bind. by rewrite Hc.
Qed.

Lemma useEffect_seed_parse_calls kind type id initialEdits last w :
  parse_calls (useEffect (seed_initialEdits kind type id initialEdits) last id w).2 =
  parse_calls w.
Proof.
  rewrite useEffect_run.
  destruct (match last with Some id' => same_value id' id | None => false end); [done|].
  rewrite seed_initialEdits_run. by destruct initialEdits.
Qed.

(** C3, as amended. The document that [useEntityBlockEditor] returns is the
    edited value of the structured property whenever that value is not
    [undefined], whatever its shape. When it is [undefined], the document is
    the memoized [initialBlocks]: the array kept for the serialized value
    when the memo holds one, and otherwise a new array, holding the blocks
    that [parse] gives for the edited value of the serialized property when
    that value is truthy and not a function, and empty when the value is
    falsy or a function. [parse] is called only to fill the memo, once, with
    a value that is truthy and not a function. *)
Theorem working_document kind type opts env st f w e r1 :
  getEntity kind type (reg w) = (Ok e, r1) →
  let id := nullish_coalesce (_id opts) (useContext (context e) env) in
  let structured := (select_prop st kind type id (default "blocks" (blocksProp opts))).1 in
  let serialized := (select_prop st kind type id (default "content" (contentProp opts))).1 in
  ∃ blocks onInput onChange f' w',
    useEntityBlockEditor parse kind type opts env st f w =
      (Ok (blocks, onInput, onChange, f'), w') ∧
    (structured ≠ VUndefined → blocks = structured) ∧
    (structured = VUndefined → memo_hit (memo f) serialized = false →
     ∃ r, blocks = VArr r (if parseable serialized then parse serialized else [])) ∧
    (structured = VUndefined →
     ∀ content v, memo f = Some (content, v) →
                  same_value content serialized = true → blocks = v) ∧
    parse_calls w' =
      parse_calls w ++
        (if parseable serialized && negb (memo_hit (memo f) serialized)
         then [serialized] else []) ∧
    (parseable serialized = false ↔
     truthy serialized = false ∨ is_function serialized = true).
Proof.
  intros Hget id structured serialized.
  destruct (useEntityBlockEditor_run parse kind type opts env st f w e r1 Hget)
    as (v & cell & w1 & Hmemo & Hrun).
  fold id in Hmemo, Hrun. fold serialized in Hmemo. fold structured in Hrun.
  assert (Hparseable : parseable serialized = false ↔
            truthy serialized = false ∨ is_function serialized = true).
  { unfold parseable. by rewrite andb_false_iff, negb_false_iff. }
  do 5 eexists. split; [exact Hrun|].
  split; [by destruct structured|].
  rewrite useEffect_seed_parse_calls.
  destruct (memo_hit (memo f) serialized) eqn:Hhit.
  - destruct (memo f) as [[content0 v0]|] eqn:Hcell; [|done]. cbn in Hhit.
    cbn in Hmemo. rewrite Hhit in Hmemo. injection Hmemo as <- <- <-.
    split; [done|].
    split; [intros -> content v' [= <- <-] _; done|].
    split; [|done]. rewrite andb_false_r. cbn. by rewrite app_nil_r.
  - destruct (useMemo_initialBlocks_miss serialized (memo f) (with_reg w r1) Hhit)
      as (r & w1' & Hmemo' & _ & _ & Hcalls).
    rewrite Hmemo in Hmemo'. cbn zeta in Hmemo'. injection Hmemo' as -> -> <-.
    split; [intros -> _; by eexists|].
    split.
    + intros _ content v' Hcell Hsame. unfold memo_hit in Hhit.
      rewrite Hcell in Hhit. congruence.
    + split; [|done]. by rewrite andb_true_r.
Qed.


End Document.

Lemma working_document_witness :
  ∃ blocks onInput onChange f' w',
    useEntityBlockEditor sample_parse "postType" "post" post_options [] sample_store
      mounting sample_world =
      (Ok (blocks, onInput, onChange, f'), w') ∧
    (VUndefined ≠ VUndefined → blocks = VUndefined) ∧
    (VUndefined = VUndefined → memo_hit None (VStr "<p>b</p>") = false →
     ∃ r, blocks = VArr r (if parseable (VStr "<p>b</p>")
                           then sample_parse (VStr "<p>b</p>") else [])) ∧
    (VUndefined = VUndefined →
     ∀ content v, None = Some (content, v) →
                  same_value content (VStr "<p>b</p>") = true → blocks = v) ∧
    parse_calls w' =
      parse_calls sample_world ++
        (if parseable (VStr "<p>b</p>") && negb (memo_hit None (VStr "<p>b</p>"))
         then [VStr "<p>b</p>"] else []) ∧
    (parseable (VStr "<p>b</p>") = false ↔
     truthy (VStr "<p>b</p>") = false ∨ is_function (VStr "<p>b</p>") = true).
Proof.
  apply (working_document sample_parse "postType" "post" post_options [] sample_store
           mounting sample_world {| context := 2 |}
           (getEntity "postType" "post" sample_registry).2).
  evaluate.
Defined.

(** C3, as it was stated, fails: the edited [blocks] of the post is the text
    "pending", which is present and is not a sequence of blocks, so the
    claim makes the document the parse of the serialized value; the hook
    returns the text. *)
Lemma working_document_counterexample :
  ¬ (∀ blocks onInput onChange f' w',
       useEntityBlockEditor sample_parse "postType" "post" post_options []
         text_blocks_store mounting sample_world =
         (Ok (blocks, onInput, onChange, f'), w') →
       ∃ r, blocks = VArr r (sample_parse (VStr "<p>b</p>"))).
Proof.
  intros H.
  destruct (H (VStr "pending")
              {| set_kind := "postType"; set_type := "post"; set_id := VNum 42;
                 set_prop := "blocks" |}
              {| closed_onInput :=
                   {| set_kind := "postType"; set_type := "post"; set_id := VNum 42;
                      set_prop := "blocks" |};
                 closed_setContent :=
                   {| set_kind := "postType"; set_type := "post"; set_id := VNum 42;
                      set_prop := "content" |} |}
              {| effect_deps := Some (VNum 42);
                 memo := Some (VStr "<p>b</p>", VArr 0 [Block "core/freeform" []]) |}
              (useEntityBlockEditor sample_parse "postType" "post" post_options []
                 text_blocks_store mounting sample_world).2) as [r Hr].
  - evaluate.
  - discriminate Hr.
Qed.


(** A pending function edit as the serialized value: [parse] is not called
    and the document is empty. *)
Example initialBlocks_of_function :
  ∃ w', compute_initialBlocks sample_parse (VFun 3 SerializeBlocks) sample_world =
          (Ok (VArr 0 []), w') ∧ parse_calls w' = [].
Proof. eexists. split; evaluate. Qed.

(** * Further properties of the module *)

(** ** The table of entries the module starts with *)

Lemma entry_eq (e : entry) c : context e = c → e = {| context := c |}.
Proof. destruct e. cbn. by intros ->. Qed.

Lemma forEach_defaults_entries defaultEntities r r' :
  forEach add_default_entity defaultEntities r = (Ok tt, r') →
  next_context r' = next_context r + length defaultEntities ∧
  ∀ kind type e,
    lookup_entry r' kind type = Some e ↔
    (∃ i entity,
        defaultEntities !! i = Some entity ∧
        pair_of entity = (kind, type) ∧
        context e = next_context r + i ∧
        Forall (fun later => pair_of later ≠ (kind, type)) (drop (S i) defaultEntities)) ∨
    (Forall (fun entity => pair_of entity ≠ (kind, type)) defaultEntities ∧
     lookup_entry r kind type = Some e).
Proof.
  revert r. induction defaultEntities as [|x rest IH]; intros r; cbn.
  - intros [= <-]. split; [lia|]. intros kind type e. split.
    + intros He. right. by split.
    + intros [(i & entity & Hi & _)|[_ He]]; [done|done].
  - unfold bind at 1.
    destruct (add_default_entity x r) as [[[]| |] r1] eqn:Hstep; try done.
    intros Hrest.
    apply add_default_entity_run in Hstep as [[? _]|(_ & Hn & _ & Hl)]; [done|].
    destruct (IH _ Hrest) as [Hn' Hl']. split; [lia|].
    intros kind type e. specialize (Hl' kind type e).
    rewrite (Hl kind type), Hn in Hl'. rewrite Hl'. clear Hl' Hl IH.
    split.
    + intros [(i & entity & Hi & Hp & Hc & Hlater)|[Hnone He]].
      * left. exists (S i), entity. split; [done|]. split; [done|]. split; [lia|done].
      * case_decide as Hx.
        -- left. exists 0, x. split; [done|]. split; [by unfold pair_of|].
           split; [injection He as <-; cbn; lia|done].
        -- right. split; [|done]. constructor; [|done]. unfold pair_of. congruence.
    + intros [(i & entity & Hi & Hp & Hc & Hlater)|[Hnone He]].
      * destruct i as [|i]; cbn in Hi, Hlater.
        -- injection Hi as <-. right. split; [by rewrite drop_0 in Hlater|].
           rewrite decide_True; [|by unfold pair_of in Hp].
           f_equal. symmetry. apply entry_eq. lia.
        -- left. exists i, entity. split; [done|]. split; [done|]. split; [lia|done].
      * apply Forall_cons in Hnone as [Hx Hnone]. right. split; [done|].
        rewrite decide_False; [done|]. unfold pair_of in Hx. congruence.
Qed.

Lemma forEach_kinds_empty kinds acc :
  forEach add_kind kinds ∅ = (Ok tt, acc) →
  ∀ kind, acc !! kind = if decide (kind ∈ (kind_name <$> kinds)) then Some ∅ else None.
Proof.
  intros H kind. destruct (forEach_kinds _ _ _ H) as [Hd Hl].
  destruct (acc !! kind) as [types|] eqn:Hk.
  - rewrite decide_True.
    + destruct (Hl _ _ Hk) as [->|Hin]; [done|]. by rewrite lookup_empty in Hin.
    + apply elem_of_dom_2 in Hk. rewrite Hd in Hk. set_solver.
  - rewrite decide_False; [done|]. intros Hin.
    apply not_elem_of_dom in Hk. apply Hk. rewrite Hd. set_solver.
Qed.

(** X3. The table built when the module is loaded: it has made one context
    per default entity; a kind that [kinds] names starts with no entry, even
    if default entities name it too; any other pair has an entry exactly
    when a default entity names it, and the entry holds the context made
    for the last such default entity. *)
Theorem initial_registry_entries defaultEntities kinds r :
  initial_registry defaultEntities kinds = Ok r →
  next_context r = length defaultEntities ∧
  (∀ kind type, kind ∈ (kind_name <$> kinds) → lookup_entry r kind type = None) ∧
  (∀ kind type e,
      lookup_entry r kind type = Some e ↔
      (kind ∉ (kind_name <$> kinds)) ∧
      (∃ i entity,
          defaultEntities !! i = Some entity ∧
          pair_of entity = (kind, type) ∧
          context e = i ∧
          Forall (fun later => pair_of later ≠ (kind, type))
            (drop (S i) defaultEntities))).
Proof.
  unfold initial_registry.
  destruct (forEach add_default_entity defaultEntities empty_registry)
    as [[[]| |] r1] eqn:Hd; try done.
  destruct (forEach add_kind kinds ∅) as [[[]| |] ks] eqn:Hk; try done.
  intros [= <-].
  destruct (forEach_defaults_entries _ _ _ Hd) as [Hn Hl].
  pose proof (forEach_kinds_empty _ _ Hk) as Hks.
  assert (Hlookup : ∀ kind type,
    lookup_entry {| entities := ks ∪ entities r1; next_context := next_context r1 |}
      kind type =
    if decide (kind ∈ (kind_name <$> kinds)) then None else lookup_entry r1 kind type).
  { intros kind type. unfold lookup_entry. cbn. specialize (Hks kind).
    case_decide.
    - rewrite (lookup_union_Some_l _ _ _ _ Hks). cbn. apply lookup_empty.
    - by rewrite (lookup_union_r _ _ _ Hks). }
  split; [cbn; cbn in Hn; lia|]. split.
  - intros kind type Hin. rewrite Hlookup. by rewrite decide_True.
  - intros kind type e. rewrite Hlookup. case_decide as Hin.
    + split; [done|]. by intros [? _].
    + rewrite Hl. cbn. split.
      * intros [H|[_ He]]; [by split|]. unfold lookup_entry in He. cbn in He.
        by rewrite lookup_empty in He.
      * intros [_ H]. by left.
Qed.

Lemma initial_registry_entries_witness :
  next_context sample_registry = length sample_entities ∧
  (∀ kind type, kind ∈ (kind_name <$> sample_kinds) →
                lookup_entry sample_registry kind type = None) ∧
  (∀ kind type e,
      lookup_entry sample_registry kind type = Some e ↔
      (kind ∉ (kind_name <$> sample_kinds)) ∧
      (∃ i entity,
          sample_entities !! i = Some entity ∧
          pair_of entity = (kind, type) ∧
          context e = i ∧
          Forall (fun later => pair_of later ≠ (kind, type))
            (drop (S i) sample_entities))).
Proof.
  apply (initial_registry_entries sample_entities sample_kinds sample_registry).
  evaluate.
Defined.

(** Names inherited from Object.prototype as a name of a default entity
    and as a kind of [kinds]: lines 24 and 28 make own properties, which
    [getEntity] then finds. *)
Example initial_registry_inherited_names :
  ∃ r, initial_registry [ {| entity_kind := "root"; entity_name := "toString" |} ]
         [ {| kind_name := "constructor" |} ] = Ok r ∧
       getEntity "root" "toString" r = (Ok {| context := 0 |}, r) ∧
       (getEntity "constructor" "post" r).1 = Ok {| context := 1 |}.
Proof. eexists. repeat split; evaluate. Qed.

(** ** What one reference changes *)

(** X4. For a kind and a type that are not names of members inherited from
    Object.prototype, a call of [getEntity] changes nothing for any other
    pair (an entry stays, a missing entry stays missing), never adds or
    removes a kind, and makes at most one context: exactly one when it
    creates the entry of its pair, none when the entry exists or when it
    throws; and it throws only for a kind that is no key of [entities]. *)
Theorem getEntity_frame kind type r :
  inherited kind = false →
  inherited type = false →
  let res := (getEntity kind type r).1 in
  let r' := (getEntity kind type r).2 in
  (∀ kind' type', (kind', type') ≠ (kind, type) →
                  lookup_entry r' kind' type' = lookup_entry r kind' type') ∧
  dom (entities r') = dom (entities r) ∧
  (r' = r ∨
   (lookup_entry r kind type = None ∧
    res = Ok {| context := next_context r |} ∧
    next_context r' = S (next_context r) ∧
    lookup_entry r' kind type = Some {| context := next_context r |})) ∧
  (∀ e, lookup_entry r kind type = Some e → res = Ok e ∧ r' = r) ∧
  ((∃ e, res = Ok e) ∨
   (res = Thrown (missing_kind_message kind) ∧ r' = r ∧ entities r !! kind = None)).
Proof.
  intros Hkind Htype res r'.
  assert (Hget : getEntity kind type r = (res, r')) by by destruct (getEntity kind type r).
  split; [intros kind' type' Hne; by eapply getEntity_others|].
  split; [by eapply getEntity_dom|].
  pose proof (getEntity_run _ _ _ _ _ Hget) as Hcase.
  split; [|split].
  - destruct Hcase as [| types Hk Ht Hi | | |]; try by left.
    right. split; [unfold lookup_entry; by rewrite Hk|].
    split; [done|]. split; [done|]. by eapply getEntity_registers.
  - intros e He. rewrite (getEntity_found_run _ _ _ _ He) in Hget.
    by injection Hget as <- <-.
  - destruct Hcase as [types e Hk Ht|types Hk Ht Hi|types Hk Ht Hi|Hk Hi|Hk Hi].
    + left. by eexists.
    + left. by eexists.
    + congruence.
    + congruence.
    + by right.
Qed.

Lemma getEntity_frame_witness :
  let res := (getEntity "postType" "post" sample_registry).1 in
  let r' := (getEntity "postType" "post" sample_registry).2 in
  (∀ kind' type', (kind', type') ≠ ("postType", "post") →
                  lookup_entry r' kind' type' = lookup_entry sample_registry kind' type') ∧
  dom (entities r') = dom (entities sample_registry) ∧
  (r' = sample_registry ∨
   (lookup_entry sample_registry "postType" "post" = None ∧
    res = Ok {| context := next_context sample_registry |} ∧
    next_context r' = S (next_context sample_registry) ∧
    lookup_entry r' "postType" "post" =
      Some {| context := next_context sample_registry |})) ∧
  (∀ e, lookup_entry sample_registry "postType" "post" = Some e →
        res = Ok e ∧ r' = sample_registry) ∧
  ((∃ e, res = Ok e) ∨
   (res = Thrown (missing_kind_message "postType") ∧ r' = sample_registry ∧
    entities sample_registry !! "postType" = None)).
Proof.
  apply (getEntity_frame "postType" "post" sample_registry); reflexivity.
Defined.

(** ** Providers of pairs the configuration does not know *)

Section ProviderChain.

Variables (defaultEntities : list entityConfig) (kinds : list kindConfig).

Lemma EntityProvider_accepts kind type id env r :
  reachable defaultEntities kinds r →
  kind ∈ configured_kinds defaultEntities kinds →
  inherited type = false →
  ∃ e, getEntity kind type r = (Ok e, (getEntity kind type r).2) ∧
       EntityProvider kind type id env r =
         (Ok ((context e, id) :: env), (getEntity kind type r).2) ∧
       reachable defaultEntities kinds (getEntity kind type r).2.
Proof.
  intros Hreach Hkind Htype.
  destruct (getEntity_accepts kind type r) as (e & r' & Hget); [|done|].
  { by rewrite (reachable_kind _ _ _ _ Hreach). }
  exists e. unfold EntityProvider, bind. rewrite Hget. split; [done|]. split; [done|].
  by eapply reachable_getEntity.
Qed.

(** X5. A chain of nested [EntityProvider] elements whose kinds are all
    configured (and whose types are not names inherited from
    Object.prototype) renders: its innermost children are below one
    provider per element, innermost first, each with the context of the
    entry of its element's pair and with its element's id. If an element
    names a kind that the configuration does not know (and that is no
    inherited name), and the elements outside it are as above, the chain
    throws the error of that kind: nothing inside the element is rendered,
    while the entries that the outer elements made stay in the registry. *)
Theorem provider_chain_throws outer p inner env r :
  reachable defaultEntities kinds r →
  Forall (fun q => provider_kind q ∈ configured_kinds defaultEntities kinds ∧
                   inherited (provider_type q) = false) outer →
  let r' := references (provider_pair <$> outer) r in
  (∃ providers,
      render_providers outer env r = (Ok (reverse providers ++ env), r') ∧
      Forall2 (fun q provider =>
                 provider.2 = provider_id q ∧
                 ∃ e, lookup_entry r' (provider_kind q) (provider_type q) = Some e ∧
                      provider.1 = context e)
        outer providers) ∧
  (provider_kind p ∉ configured_kinds defaultEntities kinds →
   inherited (provider_kind p) = false →
   render_providers (outer ++ p :: inner) env r =
     (Thrown (missing_kind_message (provider_kind p)), r')) ∧
  reachable defaultEntities kinds r'.
Proof.
  intros Hreach Houter. cbn zeta. revert env r Hreach.
  induction Houter as [|q outer [Hq Hqt] _ IH]; intros env r Hreach; cbn.
  - split; [exists []; by split|]. split; [|done].
    intros Hnot Hown. unfold bind, EntityProvider, bind.
    rewrite getEntity_missing_kind; [done| |done].
    apply eq_None_not_Some. by rewrite (reachable_kind _ _ _ _ Hreach).
  - destruct (EntityProvider_accepts (provider_kind q) (provider_type q)
                (provider_id q) env r Hreach Hq Hqt) as (e & Hget & Hp & Hreach1).
    destruct (IH ((context e, provider_id q) :: env) _ Hreach1)
      as ((providers & Hrun & Hall) & Hthrow & Hreach').
    unfold bind. rewrite Hp. fold (provider_pair q).
    split; [|split; [|done]].
    + exists ((context e, provider_id q) :: providers). split.
      * rewrite Hrun. by rewrite reverse_cons, <- app_assoc.
      * constructor; [|done]. split; [done|]. exists e. split; [|done].
        apply references_keep. by eapply getEntity_registers.
    + done.
Qed.

End ProviderChain.

Lemma provider_chain_throws_witness :
  let widget :=
    {| provider_kind := "widget"; provider_type := "sidebar"; provider_id := VNum 3 |} in
  let r' := references (provider_pair <$> [sample_provider]) sample_registry in
  (∃ providers,
      render_providers [sample_provider] [] sample_registry =
        (Ok (reverse providers ++ []), r') ∧
      Forall2 (fun q provider =>
                 provider.2 = provider_id q ∧
                 ∃ e, lookup_entry r' (provider_kind q) (provider_type q) = Some e ∧
                      provider.1 = context e)
        [sample_provider] providers) ∧
  (provider_kind widget ∉ configured_kinds sample_entities sample_kinds →
   inherited (provider_kind widget) = false →
   render_providers ([sample_provider] ++ widget :: [sample_provider]) [] sample_registry =
     (Thrown (missing_kind_message (provider_kind widget)), r')) ∧
  reachable sample_entities sample_kinds r'.
Proof.
  apply (provider_chain_throws sample_entities sample_kinds).
  - apply reachable_initial. evaluate.
  - constructor; [|constructor]. split; [|reflexivity].
    apply (bool_decide_unpack _). vm_compute. exact I.
Defined.

(** The chain of the provider of the post 42 around a provider of an
    unknown kind: the error of that kind, and the entry of the post made. *)
Example provider_chain_widget :
  render_providers
    [ sample_provider;
      {| provider_kind := "widget"; provider_type := "sidebar"; provider_id := VNum 3 |};
      sample_provider ] [] sample_registry =
  (Thrown "Missing entity config for kind: widget.",
   (getEntity "postType" "post" sample_registry).2).
Proof. evaluate. Qed.

(** ** What the hooks do to the registry *)

Section Footprint.

Variable parse : value → list block.
Variables (defaultEntities : list entityConfig) (kinds : list kindConfig).



End Footprint.


(** ** Renders and their effects *)

Lemma same_value_sym a b : same_value a b = same_value b a.
Proof.
  destruct a, b; cbn; try done.
  - by destruct b, b0.
  - apply Z.eqb_sym.
  - apply String.eqb_sym.
  - apply Nat.eqb_sym.
  - apply Nat.eqb_sym.
  - apply Nat.eqb_sym.
Qed.

Section Renders.

Variable parse : value → list block.

(** One render, by what it dispatches and leaves behind. *)
Lemma useEntityBlockEditor_effects kind type opts env st f w e r1 :
  getEntity kind type (reg w) = (Ok e, r1) →
  let id := nullish_coalesce (_id opts) (useContext (context e) env) in
  ∃ blocks onInput onChange f' w',
    useEntityBlockEditor parse kind type opts env st f w =
      (Ok (blocks, onInput, onChange, f'), w') ∧
    reg w' = r1 ∧ effect_deps f' = Some id ∧
    dispatched w' = dispatched w ++
      (if memo_hit (option_map (fun id' => (id', id')) (effect_deps f)) id then []
       else match initialEdits opts with
            | Some edits =>
                [EditEntityRecord kind type id edits (Some {| undoIgnore := true |})]
            | None => []
            end).
Proof.
  intros Hget id.
  destruct (useEntityBlockEditor_run parse kind type opts env st f w e r1 Hget)
    as (v & cell & w1 & Hmemo & Hrun).
  destruct (useMemo_initialBlocks_run parse
              (select_prop st kind type id (default "content" (contentProp opts))).1
              (memo f) (with_reg w r1))
    as (v' & cell' & wm & Hmemo' & Hreg & Hdisp).
  fold id in Hmemo. rewrite Hmemo' in Hmemo. injection Hmemo as <- <- <-.
  cbn in Hreg, Hdisp.
  do 5 eexists. split; [exact Hrun|]. fold id. rewrite useEffect_run.
  assert (Hseed : ∀ edits,
    dispatched (seed_initialEdits kind type id edits wm).2 =
    dispatched w ++ match edits with
                    | Some edits =>
                        [EditEntityRecord kind type id edits (Some {| undoIgnore := true |})]
                    | None => []
                    end ∧
    reg (seed_initialEdits kind type id edits wm).2 = r1).
  { intros edits. rewrite seed_initialEdits_run. cbn [snd].
    destruct edits; cbn; rewrite Hdisp; [done|]. by rewrite app_nil_r. }
  destruct (Hseed (initialEdits opts)) as [Hd Hr].
  destruct (effect_deps f) as [id'|]; cbn [option_map memo_hit];
    [destruct (same_value id' id); cbn [snd]|]; try done.
  split; [done|]. split; [done|]. by rewrite app_nil_r.
Qed.

Lemma rerender_same_id kind type renders f w e id :
  getEntity kind type (reg w) = (Ok e, reg w) →
  effect_deps f = Some id →
  Forall (fun p => effective_id e p = id) renders →
  ∃ f' w',
    rerender parse kind type renders f w = (Ok f', w') ∧
    dispatched w' = dispatched w.
Proof.
  intros Hget Hlast Hall. revert f w Hget Hlast.
  induction Hall as [|p later Hp _ IH]; intros f w Hget Hlast; cbn.
  - by do 2 eexists.
  - destruct (useEntityBlockEditor_effects kind type (given_options p) (given_scope p)
                (given_store p) f w e (reg w) Hget)
      as (blocks & onInput & onChange & f1 & w1 & Hrun & Hreg & Hdeps & Hd).
    fold (effective_id e p) in Hdeps, Hd. rewrite Hp in Hdeps, Hd.
    rewrite Hlast in Hd. cbn in Hd. rewrite same_value_refl, app_nil_r in Hd.
    unfold bind at 1. rewrite Hrun. cbn [snd].
    destruct (IH f1 w1) as (f' & w' & Hrest & Hd'); [by rewrite Hreg|done|].
    exists f', w'. split; [done|]. by rewrite Hd'.
Qed.

(** X6. The [initialEdits] are read by the render whose effect runs. Over
    renders that keep the id of the first one, only the first render's
    [initialEdits] are dispatched: when the first render supplied none,
    nothing is ever dispatched, whatever the later renders supply. *)
Theorem later_initialEdits_ignored kind type first later w e r1 :
  getEntity kind type (reg w) = (Ok e, r1) →
  Forall (fun p => effective_id e p = effective_id e first) later →
  ∃ f' w',
    rerender parse kind type (first :: later) mounting w = (Ok f', w') ∧
    dispatched w' = dispatched w ++
      match initialEdits (given_options first) with
      | Some edits =>
          [EditEntityRecord kind type (effective_id e first) edits
             (Some {| undoIgnore := true |})]
      | None => []
      end.
Proof.
  intros Hget Hall. cbn.
  destruct (useEntityBlockEditor_effects kind type (given_options first)
              (given_scope first) (given_store first) mounting w e r1 Hget)
    as (blocks & onInput & onChange & f1 & w1 & Hrun & Hreg & Hdeps & Hd).
  unfold bind at 1. rewrite Hrun. cbn [snd].
  destruct (rerender_same_id kind type later f1 w1 e (effective_id e first))
    as (f' & w' & Hrest & Hd'); [|done|done|].
  { rewrite Hreg. by eapply getEntity_again. }
  exists f', w'. split; [done|]. by rewrite Hd', Hd.
Qed.

Lemma useMemo_initialBlocks_cell content cell w v cell1 w1 :
  useMemo_initialBlocks parse content cell w = (Ok (v, cell1), w1) →
  ∃ content0, cell1 = Some (content0, v) ∧ same_value content0 content = true.
Proof.
  destruct (memo_hit cell content) eqn:Hhit.
  - destruct cell as [[content0 v0]|]; [|done]. cbn in Hhit. cbn. rewrite Hhit.
    intros [= <- <- <-]. by exists content0.
  - destruct (useMemo_initialBlocks_miss parse content cell w Hhit)
      as (r & w' & -> & _). cbn zeta. intros [= <- <- <-].
    exists content. split; [done|]. apply same_value_refl.
Qed.

(** X7. A render repeated with the same options, scope and store, from the
    hook state and the world that the first one left, returns the same
    document (the same array), the same [onInput] and [onChange] and the
    same hook state, and changes nothing: no edit is dispatched, [parse] is
    not called, nothing is allocated and the registry stays as it is. *)
Theorem rerender_unchanged kind type opts env st f w blocks onInput onChange f1 w1 :
  useEntityBlockEditor parse kind type opts env st f w =
    (Ok (blocks, onInput, onChange, f1), w1) →
  useEntityBlockEditor parse kind type opts env st f1 w1 =
    (Ok (blocks, onInput, onChange, f1), w1).
Proof.
  intros Hfirst.
  destruct (getEntity kind type (reg w)) as [[e|message|] r1] eqn:Hget.
  - destruct (useEntityBlockEditor_run parse kind type opts env st f w e r1 Hget)
      as (v & cell & wm & Hmemo & Hrun).
    destruct (useEntityBlockEditor_effects kind type opts env st f w e r1 Hget)
      as (? & ? & ? & f1' & w1' & Hrun' & Hreg & Hdeps & _).
    rewrite Hfirst in Hrun'. injection Hrun' as <- <- <- <- <-.
    destruct (useMemo_initialBlocks_cell _ _ _ _ _ _ Hmemo) as (content0 & -> & Hsame).
    assert (Hget1 : getEntity kind type (reg w1) = (Ok e, r1)).
    { rewrite Hreg. by eapply getEntity_again. }
    assert (Hw1 : with_reg w1 r1 = w1) by (rewrite <- Hreg; apply with_reg_same).
    destruct (useEntityBlockEditor_run parse kind type opts env st f1 w1 e r1 Hget1)
      as (v2 & cell2 & wm2 & Hmemo2 & Hrun2).
    rewrite Hfirst in Hrun. injection Hrun as Hb Hi Hc Hf Hw.
    rewrite Hw1, Hf in Hmemo2. cbn [memo useMemo_initialBlocks] in Hmemo2.
    rewrite Hsame in Hmemo2. injection Hmemo2 as <- <- <-.
    rewrite Hrun2, useEffect_run, Hdeps, same_value_refl. cbn [snd].
    by rewrite Hb, Hi, Hc, Hf.
  - by rewrite (useEntityBlockEditor_thrown parse _ _ _ _ _ _ _ _ _ Hget) in Hfirst.
  - unfold useEntityBlockEditor, bind in Hfirst.
    by rewrite (useEntityId_world _ _ _ _ _ _ Hget) in Hfirst.
Qed.

(** X10. The memo of [initialBlocks] holds one value. An evaluation with a
    serialized value that [Object.is] tells apart from the one before
    computes again, calling [parse] when the new value is truthy and not a
    function; and an evaluation that then comes back to the earlier value
    computes once more. *)
Theorem initialBlocks_recomputed content content' cell w :
  same_value content content' = false →
  ∃ v cell1 w1 r2 w2 r3 w3,
    useMemo_initialBlocks parse content cell w = (Ok (v, cell1), w1) ∧
    useMemo_initialBlocks parse content' cell1 w1 =
      (let v2 := VArr r2 (if parseable content' then parse content' else []) in
       (Ok (v2, Some (content', v2)), w2)) ∧
    parse_calls w2 =
      parse_calls w1 ++ (if parseable content' then [content'] else []) ∧
    useMemo_initialBlocks parse content (Some (content', VArr r2
        (if parseable content' then parse content' else []))) w2 =
      (let v3 := VArr r3 (if parseable content then parse content else []) in
       (Ok (v3, Some (content, v3)), w3)) ∧
    parse_calls w3 =
      parse_calls w2 ++ (if parseable content then [content] else []).
Proof.
  intros Hdiff.
  destruct (useMemo_initialBlocks_run parse content cell w)
    as (v & cell1 & w1 & Hfirst & _).
  destruct (useMemo_initialBlocks_cell _ _ _ _ _ _ Hfirst) as (content0 & -> & Hsame).
  assert (Hmiss : memo_hit (Some (content0, v)) content' = false).
  { cbn. destruct (same_value content0 content') eqn:H0; [|done].
    rewrite same_value_sym in Hsame.
    by rewrite (same_value_trans _ _ _ Hsame H0) in Hdiff. }
  destruct (useMemo_initialBlocks_miss parse content' _ w1 Hmiss)
    as (r2 & w2 & Hsecond & _ & _ & Hcalls2).
  assert (Hmiss' : memo_hit (Some (content',
            VArr r2 (if parseable content' then parse content' else []))) content = false).
  { cbn. by rewrite same_value_sym. }
  destruct (useMemo_initialBlocks_miss parse content _ w2 Hmiss')
    as (r3 & w3 & Hthird & _ & _ & Hcalls3).
  by exists v, (Some (content0, v)), w1, r2, w2, r3, w3.
Qed.

(** X11. The functions [onInput] and [onChange] that a render returns are
    fixed by the pair, the names of the two properties and the effective
    id: they are the same whatever the store holds (a record that has not
    loaded included), whatever the hook state, and they are there although
    the document is still empty. *)
Theorem callbacks_independent_of_store kind type opts env st st' f f' w e r1 :
  getEntity kind type (reg w) = (Ok e, r1) →
  ∃ blocks onInput onChange f1 w1 blocks' f1' w1',
    useEntityBlockEditor parse kind type opts env st f w =
      (Ok (blocks, onInput, onChange, f1), w1) ∧
    useEntityBlockEditor parse kind type opts env st' f' w =
      (Ok (blocks', onInput, onChange, f1'), w1') ∧
    set_id onInput = nullish_coalesce (_id opts) (useContext (context e) env) ∧
    set_prop onInput = default "blocks" (blocksProp opts) ∧
    closed_onInput onChange = onInput ∧
    set_prop (closed_setContent onChange) = default "content" (contentProp opts) ∧
    set_id (closed_setContent onChange) = set_id onInput.
Proof.
  intros Hget.
  destruct (useEntityBlockEditor_run parse kind type opts env st f w e r1 Hget)
    as (v & cell & wm & _ & Hrun).
  destruct (useEntityBlockEditor_run parse kind type opts env st' f' w e r1 Hget)
    as (v' & cell' & wm' & _ & Hrun').
  do 8 eexists. split; [exact Hrun|]. split; [exact Hrun'|]. done.
Qed.

End Renders.

(** ** Calls of setters *)

(** X9. Setters called one after the other dispatch one edit per call, in
    the order of the calls, each with the single property of its setter:
    nothing is merged, reordered or left out, also when two calls are
    alike; and the calls touch nothing but the list of dispatched actions. *)
Theorem setters_dispatch_in_order calls w :
  call_setters calls w =
    (Ok tt,
     {| reg := reg w;
        dispatched := dispatched w ++ (edit_of_call <$> calls);
        parse_calls := parse_calls w;
        next_ref := next_ref w |}) ∧
  length (dispatched (call_setters calls w).2) = length (dispatched w) + length calls ∧
  ∀ i call, calls !! i = Some call →
    dispatched (call_setters calls w).2 !! (length (dispatched w) + i) =
      Some (EditEntityRecord (set_kind call.1) (set_type call.1) (set_id call.1)
              {[ set_prop call.1 := call.2 ]} None).
Proof.
  assert (Hrun : call_setters calls w =
    (Ok tt,
     {| reg := reg w;
        dispatched := dispatched w ++ (edit_of_call <$> calls);
        parse_calls := parse_calls w;
        next_ref := next_ref w |})).
  { revert w. induction calls as [|[f v] later IH]; intros w;
      cbn [call_setters fmap list_fmap].
    - rewrite app_nil_r. by destruct w.
    - unfold bind. rewrite call_setValue_run, IH. cbn.
      by rewrite <- app_assoc. }
  split; [done|]. rewrite Hrun. cbn. split.
  - by rewrite length_app, length_fmap.
  - intros i call Hi. rewrite lookup_app_r; [|lia].
    replace (length (dispatched w) + i - length (dispatched w)) with i by lia.
    by rewrite list_lookup_fmap, Hi.
Qed.

(** ** Sample runs of the further properties *)

Lemma later_initialEdits_ignored_witness :
  let first :=
    {| given_options :=
         {| initialEdits := None; blocksProp := None; contentProp := None;
            _id := VNum 5 |};
       given_scope := []; given_store := sample_store |} in
  let later :=
    [ {| given_options := draft_options; given_scope := [];
         given_store := sample_store |} ] in
  ∃ f' w',
    rerender sample_parse "postType" "post" (first :: later) mounting sample_world =
      (Ok f', w') ∧
    dispatched w' = dispatched sample_world ++
      match initialEdits (given_options first) with
      | Some edits =>
          [EditEntityRecord "postType" "post" (effective_id {| context := 2 |} first)
             edits (Some {| undoIgnore := true |})]
      | None => []
      end.
Proof.
  apply (later_initialEdits_ignored sample_parse "postType" "post" _ _ sample_world
           {| context := 2 |} (getEntity "postType" "post" sample_registry).2).
  - evaluate.
  - repeat constructor.
Defined.

Lemma rerender_unchanged_witness :
  let blocks := VArr 0 [Block "core/freeform" []] in
  let onInput :=
    {| set_kind := "postType"; set_type := "post"; set_id := VNum 42;
       set_prop := "blocks" |} in
  let onChange :=
    {| closed_onInput := onInput;
       closed_setContent :=
         {| set_kind := "postType"; set_type := "post"; set_id := VNum 42;
            set_prop := "content" |} |} in
  let f1 := {| effect_deps := Some (VNum 42);
               memo := Some (VStr "<p>b</p>", blocks) |} in
  let w1 := {| reg := (getEntity "postType" "post" sample_registry).2;
               dispatched := []; parse_calls := [VStr "<p>b</p>"]; next_ref := 1 |} in
  useEntityBlockEditor sample_parse "postType" "post" post_options [] sample_store f1 w1 =
    (Ok (blocks, onInput, onChange, f1), w1).
Proof.
  apply (rerender_unchanged sample_parse "postType" "post" post_options [] sample_store
           mounting sample_world).
  evaluate.
Defined.

Lemma initialBlocks_recomputed_witness :
  ∃ v cell1 w1 r2 w2 r3 w3,
    useMemo_initialBlocks sample_parse (VStr "<p>a</p>") None sample_world =
      (Ok (v, cell1), w1) ∧
    useMemo_initialBlocks sample_parse (VStr "<p>b</p>") cell1 w1 =
      (let v2 := VArr r2 (if parseable (VStr "<p>b</p>")
                          then sample_parse (VStr "<p>b</p>") else []) in
       (Ok (v2, Some (VStr "<p>b</p>", v2)), w2)) ∧
    parse_calls w2 =
      parse_calls w1 ++ (if parseable (VStr "<p>b</p>") then [VStr "<p>b</p>"] else []) ∧
    useMemo_initialBlocks sample_parse (VStr "<p>a</p>")
      (Some (VStr "<p>b</p>",
             VArr r2 (if parseable (VStr "<p>b</p>")
                      then sample_parse (VStr "<p>b</p>") else []))) w2 =
      (let v3 := VArr r3 (if parseable (VStr "<p>a</p>")
                          then sample_parse (VStr "<p>a</p>") else []) in
       (Ok (v3, Some (VStr "<p>a</p>", v3)), w3)) ∧
    parse_calls w3 =
      parse_calls w2 ++ (if parseable (VStr "<p>a</p>") then [VStr "<p>a</p>"] else []).
Proof.
  apply (initialBlocks_recomputed sample_parse (VStr "<p>a</p>") (VStr "<p>b</p>")
           None sample_world).
  reflexivity.
Defined.

Lemma callbacks_independent_of_store_witness :
  ∃ blocks onInput onChange f1 w1 blocks' f1' w1',
    useEntityBlockEditor sample_parse "postType" "post" post_options [] sample_store
      mounting sample_world = (Ok (blocks, onInput, onChange, f1), w1) ∧
    useEntityBlockEditor sample_parse "postType" "post" post_options [] empty_store
      mounting sample_world = (Ok (blocks', onInput, onChange, f1'), w1') ∧
    set_id onInput = nullish_coalesce (_id post_options) (useContext (context {| context := 2 |}) []) ∧
    set_prop onInput = default "blocks" (blocksProp post_options) ∧
    closed_onInput onChange = onInput ∧
    set_prop (closed_setContent onChange) = default "content" (contentProp post_options) ∧
    set_id (closed_setContent onChange) = set_id onInput.
Proof.
  apply (callbacks_independent_of_store sample_parse "postType" "post" post_options []
           sample_store empty_store mounting mounting sample_world {| context := 2 |}
           (getEntity "postType" "post" sample_registry).2).
  evaluate.
Defined.

(** Two calls of one setter with one value are two edits. *)
Example setters_twice :
  let setTitle :=
    {| set_kind := "postType"; set_type := "post"; set_id := VNum 42;
       set_prop := "title" |} in
  dispatched (call_setters [(setTitle, VStr "C"); (setTitle, VStr "C")] sample_world).2 =
    [ EditEntityRecord "postType" "post" (VNum 42) {[ "title" := VStr "C" ]} None;
      EditEntityRecord "postType" "post" (VNum 42) {[ "title" := VStr "C" ]} None ].
Proof. evaluate. Qed.
